(** * nebula-importer: the client pool (pkg/client/clientpool.go)

    A shallow embedding of [ClientPool]: construction ([NewClientPool]),
    the command helper [exec], shutdown ([Close]) and the per-session
    worker ([startWorker]) with its retry classification.

    Conventions.
    - Go [int]/[int64] values are [Z]; where the source does arithmetic
      that can leave the 64-bit range the wrap-around is written out
      ([wrap64]).  Slice indices are [Z] as well, looked up with [at_index].
    - A run-time panic (index out of range, nil dereference, close of a
      closed channel, [make] with a negative length) is the [None] of the
      monad [M].
    - Everything a function does to the outside (statements sent to the
      server, records sent on channels, log lines, releases, closes) is
      appended to the [trace] of the state, oldest first.
    - The server, the connection pool and the clock are oracles carried in
      the state: a session answers its [n]-th [Execute] call with
      [respond n stmt]. *)

From Stdlib Require Import ZArith Lia Bool Ascii String.
From stdpp Require Import base option list.

Local Open Scope string_scope.
Local Open Scope list_scope.
Local Open Scope Z_scope.

(** ** Library functions the source calls *)

Module GoLib.

(** [int] is taken to be 64 bits wide. *)
Definition minInt : Z := - 2 ^ 63.
Definition maxInt : Z := 2 ^ 63 - 1.

Definition wrap64 (z : Z) : Z := (z + 2 ^ 63) mod 2 ^ 64 - 2 ^ 63.

(** [s[i]] on a slice: out of range (also negative) is [None]. *)
Definition at_index {A} (l : list A) (i : Z) : option A :=
  if i <? 0 then None else l !! Z.to_nat i.

(** [strings.Split(s, sep)] for a one-byte separator, which is all the
    source uses ([","] and [":"]): the pieces between the separators,
    [n + 1] of them when [sep] occurs [n] times. *)
Fixpoint Split (s : string) (sep : ascii) : list string :=
  match s with
  | EmptyString => [EmptyString]
  | String c rest =>
      match Split rest sep with
      | piece :: pieces =>
          if Ascii.eqb c sep then EmptyString :: piece :: pieces
          else String c piece :: pieces
      | [] => []
      end
  end.

(** [strings.Contains(s, substr)]. *)
Fixpoint Contains (s substr : string) : bool :=
  String.prefix substr s ||
  match s with
  | EmptyString => false
  | String _ rest => Contains rest substr
  end.

Definition digit_of (c : ascii) : option Z :=
  let n := Z.of_N (N_of_ascii c) in
  if (48 <=? n) && (n <=? 57) then Some (n - 48) else None.

Fixpoint digits (s : string) (acc : Z) : option Z :=
  match s with
  | EmptyString => Some acc
  | String c rest =>
      match digit_of c with
      | Some d => digits rest (acc * 10 + d)
      | None => None
      end
  end.

(** [strconv.Atoi]: an optional sign and at least one decimal digit, the
    value within [int]; anything else is an error ([None]). *)
Definition Atoi (s : string) : option Z :=
  let '(neg, body) :=
    match s with
    | String "-"%char rest => (true, rest)
    | String "+"%char rest => (false, rest)
    | _ => (false, s)
    end in
  match body with
  | EmptyString => None
  | _ =>
      match digits body 0 with
      | Some n =>
          let v := if neg : bool then - n else n in
          if (minInt <=? v) && (v <=? maxInt) then Some v else None
      | None => None
      end
  end.

End GoLib.
Import GoLib.

(** ** Errors

    An [error] is either a value handed back by a library (the client
    library's transport errors, [strconv]'s parse errors) or one built by
    [fmt.Errorf], kept as its format and arguments. *)

Inductive Arg :=
| ArgInt (z : Z)
| ArgStr (s : string)
| ArgCode (code : Z)
| ArgError (e : error)
with error :=
| LibError (msg : string)
| Errorf (format : string) (args : list Arg).

(** ** The client library (nebula-go) as the source uses it *)

(** The error codes of the server, by their numbers in the client library;
    only that the three differ matters below. *)
Definition ErrorCode := Z.
Definition ErrorCode_SUCCEEDED : ErrorCode := 0.
Definition ErrorCode_E_SYNTAX_ERROR : ErrorCode := -1004.
Definition ErrorCode_E_SEMANTIC_ERROR : ErrorCode := -1009.

Record ResultSet := mkResultSet {
  GetErrorCode : ErrorCode;
  GetErrorMsg : string;
  GetLatency : Z
}.

(** [ResultSet.IsSucceed]: the error code is [ErrorCode_SUCCEEDED]. *)
Definition IsSucceed (res : ResultSet) : bool :=
  GetErrorCode res =? ErrorCode_SUCCEEDED.

(** What [Session.Execute] returns, a result-set pointer and an error: a
    response, a transport error, or both.  The library never returns
    [(nil, nil)]. *)
Inductive Reply :=
| ReplyResp (resp : ResultSet)
| ReplyErr (err : error)
| ReplyBoth (resp : ResultSet) (err : error).

Definition reply_resp (r : Reply) : option ResultSet :=
  match r with
  | ReplyResp resp | ReplyBoth resp _ => Some resp
  | ReplyErr _ => None
  end.

Definition reply_err (r : Reply) : option error :=
  match r with
  | ReplyResp _ => None
  | ReplyErr err | ReplyBoth _ err => Some err
  end.

(** A session: the answers of the server to its successive [Execute]
    calls, how long each call takes (nanoseconds), the number of calls made
    so far, and whether it was released. *)
Record Session := mkSession {
  respond : nat -> string -> Reply;
  rtt : nat -> string -> Z;
  calls : nat;
  released : bool
}.

Record HostAddress := mkHostAddress { Host : string; Port : Z }.

Record PoolConfig := mkPoolConfig {
  TimeOut : Z;
  IdleTime : Z;
  MaxConnPoolSize : Z;
  MinConnPoolSize : Z
}.

(** The connection pool: its [n]-th [GetSession] call yields [grant n user
    password]. *)
Record ConnectionPool := mkConnectionPool {
  grant : nat -> string -> string -> sum Session error;
  granted : nat;
  poolClosed : bool
}.

(** [nebula.NewConnectionPool(hosts, conf, log)]: reaching the cluster. *)
Definition Cluster := list HostAddress -> PoolConfig -> sum ConnectionPool error.

(** ** pkg/base and pkg/config, as far as the client pool uses them *)

(** Modelled from the spec: [base.Data], one record of a payload with its
    byte size ("ordered sequence of records-with-byte-size"); the type is
    declared in pkg/base. *)
Record Data := mkData { Row : list string; Bytes : Z }.

(** Modelled from the spec: [base.ErrData], the failure record "error,
    original payload"; declared in pkg/base. *)
Record ErrData := mkErrData { Error : option error; ErrData_Data : list Data }.

(** Modelled from the spec: [base.ClientRequest], "statement: text,
    payload, result-channel"; declared in pkg/base.  A channel is named by
    a number. *)
Record ClientRequest := mkClientRequest {
  Stmt : string;
  ErrCh : nat;
  Request_Data : list Data
}.

(** Modelled from the spec: [base.STAT_FILEDONE], the reserved statement of
    the end-of-input sentinel request; declared in pkg/base.  No proof
    below depends on its text. *)
Definition STAT_FILEDONE : string := "FILEDONE".

(** Modelled from the spec: [base.Stats] as built by
    [base.NewSuccessStats], "SuccessStats{server-latency,
    wall-clock-duration, record-count, byte-count}"; declared in pkg/base. *)
Record Stats := mkStats {
  Latency : Z;
  ReqTime : Z;
  BatchSize : Z;
  ImportedBytes : Z
}.

Definition NewSuccessStats (latency reqTime batchSize importedBytes : Z) : Stats :=
  mkStats latency reqTime batchSize importedBytes.

Record NebulaPostStart := mkPostStart {
  PostStart_Commands : option string;
  AfterPeriod : option string
}.

Record NebulaPreStop := mkPreStop { PreStop_Commands : option string }.

Record NebulaClientConnection := mkConnection {
  User : string;
  Password : string;
  Address : string
}.

(** [config.NebulaClientSettings]; the pointer fields the constructor
    dereferences are taken as set. *)
Record NebulaClientSettings := mkSettings {
  Retry_ : Z;
  Concurrency : Z;
  ChannelBufferSize : Z;
  Space : string;
  Connection : NebulaClientConnection;
  PostStart : option NebulaPostStart;
  PreStop : option NebulaPreStop
}.

(** ** The pool *)

(** A request queue [chan base.ClientRequest]: what is waiting in it, its
    capacity, and whether it was closed. *)
Record Chan := mkChan {
  buf : list ClientRequest;
  cap : Z;
  closed : bool
}.

Record ClientPool := mkClientPool {
  retry : Z;
  concurrency : Z;
  space : string;
  postStart : option NebulaPostStart;
  preStop : option NebulaPreStop;
  statsCh : nat;
  pool : ConnectionPool;
  Sessions : list (option Session);
  requestChs : list (option Chan)
}.

(** What a run does to the outside, in order. *)
Inductive Event :=
| EvExecute (i : Z) (stmt : string)
| EvLogError (e : error)
| EvSendErr (ch : nat) (d : ErrData)
| EvSendStats (ch : nat) (s : Stats)
| EvRelease (i : Z)
| EvCloseCh (i : Z)
| EvClosePool.

(** The state a method runs in: the pool it is called on, the wall clock
    (nanoseconds), the delays a back-off created at a given time will hand
    out before its elapsed-time cap makes it stop, and the trace. *)
Record State := mkState {
  cp : ClientPool;
  clock : Z;
  timer : Z -> list Z;
  trace : list Event
}.

(** ** The monad of methods: state passing, [None] for a panic *)

Definition M (A : Type) : Type := State -> option (A * State).

Definition ret {A} (a : A) : M A := fun st => Some (a, st).

Definition bind {A B} (m : M A) (k : A -> M B) : M B :=
  fun st =>
    match m st with
    | Some (a, st') => k a st'
    | None => None
    end.

Definition panic {A} : M A := fun _ => None.

Notation "'do' x <- m ; k" := (bind m (fun x => k))
  (at level 10, x name, m at level 100, k at level 200).
Notation "'do_' m ; k" := (bind m (fun _ => k))
  (at level 10, m at level 100, k at level 200).

Definition get : M State := fun st => Some (st, st).

Definition emit (e : Event) : M unit :=
  fun st => Some (tt, mkState (cp st) (clock st) (timer st) (trace st ++ [e])).

(** The clock moves while a call is on the wire or the worker sleeps. *)
Definition elapse (d : Z) : M unit :=
  fun st => Some (tt, mkState (cp st) (clock st + d) (timer st) (trace st)).

Definition with_Sessions (ss : list (option Session)) (p : ClientPool) : ClientPool :=
  mkClientPool (retry p) (concurrency p) (space p) (postStart p) (preStop p)
    (statsCh p) (pool p) ss (requestChs p).

Definition with_requestChs (chs : list (option Chan)) (p : ClientPool) : ClientPool :=
  mkClientPool (retry p) (concurrency p) (space p) (postStart p) (preStop p)
    (statsCh p) (pool p) (Sessions p) chs.

Definition with_pool (c : ConnectionPool) (p : ClientPool) : ClientPool :=
  mkClientPool (retry p) (concurrency p) (space p) (postStart p) (preStop p)
    (statsCh p) c (Sessions p) (requestChs p).

Definition modify (f : ClientPool -> ClientPool) : M unit :=
  fun st => Some (tt, mkState (f (cp st)) (clock st) (timer st) (trace st)).

(** [p.Sessions[i]] followed by a method call on it: the index must be in
    range and the slot not nil. *)
Definition session_at (i : Z) : M Session :=
  do st <- get;
  match at_index (Sessions (cp st)) i with
  | Some (Some s) => ret s
  | _ => panic
  end.

Definition put_session (i : Z) (s : Session) : M unit :=
  modify (fun p => with_Sessions (<[Z.to_nat i := Some s]> (Sessions p)) p).

(** [p.Sessions[i].Execute(stmt)]. *)
Definition Execute (i : Z) (stmt : string) : M Reply :=
  do s <- session_at i;
  do_ put_session i (mkSession (respond s) (rtt s) (S (calls s)) (released s));
  do_ elapse (rtt s (calls s) stmt);
  do_ emit (EvExecute i stmt);
  ret (respond s (calls s) stmt).

(** [p.Sessions[i].Release()]. *)
Definition Release (i : Z) : M unit :=
  do s <- session_at i;
  do_ put_session i (mkSession (respond s) (rtt s) (calls s) true);
  emit (EvRelease i).

(** ** getActiveConnIdx *)

Fixpoint first_active (ss : list (option Session)) (i : Z) : Z :=
  match ss with
  | [] => -1
  | Some _ :: _ => i
  | None :: rest => first_active rest (i + 1)
  end.

Definition getActiveConnIdx (p : ClientPool) : Z := first_active (Sessions p) 0.

(** ** exec *)

Definition exec (i : Z) (stmt : string) : M (option error) :=
  if (String.length stmt =? 0)%nat then ret None
  else
    do r <- Execute i stmt;
    match r with
    | ReplyErr err | ReplyBoth _ err =>
        ret (Some (Errorf "Client(%d) fails to execute commands (%s), error: %s"
                     [ArgInt i; ArgStr stmt; ArgError err]))
    | ReplyResp resp =>
        if negb (IsSucceed resp) then
          ret (Some (Errorf
                 "Client(%d) fails to execute commands (%s), response error code: %v, message: %s"
                 [ArgInt i; ArgStr stmt; ArgCode (GetErrorCode resp); ArgStr (GetErrorMsg resp)]))
        else ret None
    end.

(** ** Close *)

Definition chan_at (i : Z) : M (option Chan) :=
  do st <- get;
  match at_index (requestChs (cp st)) i with
  | Some c => ret c
  | None => panic
  end.

(** [close(p.requestChs[i])] on a channel that is not nil; closing a closed
    channel panics. *)
Definition close (i : Z) (c : Chan) : M unit :=
  if closed c then panic
  else
    do_ modify (fun p => with_requestChs
                  (<[Z.to_nat i := Some (mkChan (buf c) (cap c) true)]> (requestChs p)) p);
    emit (EvCloseCh i).

(** The body of [for i := 0; i < p.concurrency; i++], run [n] times from
    [i]. *)
Fixpoint Close_loop (n : nat) (i : Z) : M unit :=
  match n with
  | O => ret tt
  | S n' =>
      do st <- get;
      do_ match at_index (Sessions (cp st)) i with
          | Some (Some _) => Release i
          | Some None => ret tt
          | None => panic
          end;
      do c <- chan_at i;
      do_ match c with
          | Some c => close i c
          | None => ret tt
          end;
      Close_loop n' (i + 1)
  end.

(** [p.pool.Close()]. *)
Definition pool_Close : M unit :=
  do_ modify (fun p => with_pool (mkConnectionPool (grant (pool p)) (granted (pool p)) true) p);
  emit EvClosePool.

Definition Close : M unit :=
  do st <- get;
  do_ match preStop (cp st) with
      | Some ps =>
          match PreStop_Commands ps with
          | Some commands =>
              let i := getActiveConnIdx (cp st) in
              if negb (i =? -1) then
                do err <- exec i commands;
                match err with
                | Some e => emit (EvLogError e)
                | None => ret tt
                end
              else ret tt
          | None => ret tt
          end
      | None => ret tt
      end;
  do_ Close_loop (Z.to_nat (concurrency (cp st))) 0;
  pool_Close.

(** ** The retry loop of a worker *)

(** What the operation handed to [backoff.Retry] returns when it is not
    nil: an error to retry on, or one wrapped by [backoff.Permanent]. *)
Inductive OpError :=
| Retryable (e : error)
| Permanent (e : error).

(** [backoff.Retry(operation, b)] over the state [V] of the variables the
    closure captures.  The back-off [b] is the list of delays its
    [NextBackOff] returns before it answers [Stop]; the loop ends on a nil
    result, on a permanent error, and on [Stop]. *)
Fixpoint Retry {V} (operation : V -> M (option OpError * V)) (b : list Z) (v : V)
  : M (option error * V) :=
  do r <- operation v;
  match r with
  | (None, v') => ret (None, v')
  | (Some (Permanent e), v') => ret (Some e, v')
  | (Some (Retryable e), v') =>
      match b with
      | [] => ret (Some e, v')
      | next :: b' => do_ elapse next; Retry operation b' v'
      end
  end.

(** The variables of [startWorker] that the closure reads and writes. *)
Record Captured := mkCaptured {
  c_err : option error;
  c_resp : option ResultSet;
  c_retry : Z
}.

Definition isPermanentError (errorCode : ErrorCode) : bool :=
  (errorCode =? ErrorCode_E_SYNTAX_ERROR) || (errorCode =? ErrorCode_E_SEMANTIC_ERROR).

Definition raft_buffer_full : string := "raft buffer is full".

(** [err == nil && resp.IsSucceed()]. *)
Definition succeeded (r : Reply) : bool :=
  match reply_err r, reply_resp r with
  | None, Some resp => IsSucceed resp
  | _, _ => false
  end.

(** The closure: one attempt and its classification.  [retryErr] is the
    transport error, replaced by the response's code and message when
    there is a response. *)
Definition operation (i : Z) (data : ClientRequest) (v : Captured)
  : M (option OpError * Captured) :=
  do r <- Execute i (Stmt data);
  do st <- get;
  let err := reply_err r in
  let resp := reply_resp r in
  if succeeded r then ret (None, mkCaptured err resp (c_retry v))
  else
    (* Case 3: retry with limit times *)
    let limited (retryErr : error) : M (option OpError * Captured) :=
      if c_retry v <=? 0
      then ret (Some (Permanent retryErr), mkCaptured err resp (c_retry v))
      else ret (Some (Retryable retryErr), mkCaptured err resp (c_retry v - 1)) in
    match resp with
    | Some res =>
        let errorCode := GetErrorCode res in
        let errorMsg := GetErrorMsg res in
        let retryErr := Errorf "%d:%s" [ArgCode errorCode; ArgStr errorMsg] in
        (* Case 1: retry no more *)
        if isPermanentError errorCode
        then ret (Some (Permanent retryErr), mkCaptured err resp (c_retry v))
        (* Case 2: retry as much as possible *)
        else if Contains errorMsg raft_buffer_full
        then ret (Some (Retryable retryErr), mkCaptured err resp (retry (cp st)))
        else limited retryErr
    | None =>
        match err with
        | Some e => limited e
        | None => panic
        end
    end.

(** [backoff.NewExponentialBackOff()] with the intervals of the source: the
    initial interval is 1 s, the multiplier 1.5, the randomization factor
    0.1, the interval cap 2 min and the elapsed-time cap 1 h.  The delays
    it will grant depend on the clock and on chance and come from the
    [timer] of the state. *)
Definition DefaultRetryInitialInterval : Z := 1000000000.
Definition DefaultRetryMaxInterval : Z := 2 * 60 * 1000000000.
Definition DefaultRetryMaxElapsedTime : Z := 3600 * 1000000000.

Definition NewExponentialBackOff : M (list Z) :=
  do st <- get; ret (timer st (clock st)).

Definition importedBytes (data : list Data) : Z :=
  fold_left (fun acc d => wrap64 (acc + Bytes d)) data 0.

(** The end of the loop body: from the [err] and [resp] the last attempt
    left behind, one record goes out, on the request's error channel or on
    the statistics channel.  [now] is the time the request was taken up. *)
Definition settle (i : Z) (data : ClientRequest) (now : Z) (v : Captured) : M unit :=
  do err <-
    match c_err v with
    | Some e =>
        ret (Some (Errorf "Client %d fail to execute: %s, Error: %s"
                     [ArgInt i; ArgStr (Stmt data); ArgError e]))
    | None =>
        match c_resp v with
        | Some resp =>
            if negb (IsSucceed resp) then
              ret (Some (Errorf "Client %d fail to execute: %s, ErrMsg: %s, ErrCode: %v"
                           [ArgInt i; ArgStr (Stmt data); ArgStr (GetErrorMsg resp);
                            ArgCode (GetErrorCode resp)]))
            else ret None
        | None => panic
        end
    end;
  match err with
  | Some e => emit (EvSendErr (ErrCh data) (mkErrData (Some e) (Request_Data data)))
  | None =>
      do st <- get;
      let timeInMs := Z.quot (clock st - now) 1000 in
      match c_resp v with
      | Some resp =>
          emit (EvSendStats (statsCh (cp st))
                  (NewSuccessStats (GetLatency resp) timeInMs
                     (Z.of_nat (length (Request_Data data)))
                     (importedBytes (Request_Data data))))
      | None => panic
      end
  end.

(** The body of the worker's loop for a request that is not the sentinel. *)
Definition serve (i : Z) (data : ClientRequest) : M unit :=
  do st0 <- get;
  let now := clock st0 in
  do exp <- NewExponentialBackOff;
  do r <- Retry (operation i data) exp (mkCaptured None None (retry (cp st0)));
  settle i data now (snd r).

(** How a worker's run ends here: it returned, or it waits on a queue that
    is empty and not closed. *)
Inductive WorkerEnd := Returned | Waiting.

Definition set_buf (i : Z) (c : Chan) (q : list ClientRequest) : M unit :=
  modify (fun p => with_requestChs
            (<[Z.to_nat i := Some (mkChan q (cap c) (closed c))]> (requestChs p)) p).

(** The [for] loop of [startWorker] over what is queued in
    [p.requestChs[i]], in order. *)
Fixpoint worker_loop (i : Z) (c : Chan) (q : list ClientRequest) : M WorkerEnd :=
  match q with
  | [] => ret (if closed c then Returned else Waiting)
  | data :: q' =>
      do_ set_buf i c q';
      if String.eqb (Stmt data) STAT_FILEDONE then
        do_ emit (EvSendErr (ErrCh data) (mkErrData None []));
        worker_loop i c q'
      else
        do_ serve i data;
        worker_loop i c q'
  end.

Definition USE (space_ : string) : string :=
  String.append "USE `" (String.append space_ "`;").

(** The loop of [startWorker] on the queue of slot [i]; receiving from a
    nil channel waits for ever. *)
Definition drain (i : Z) : M WorkerEnd :=
  do c <- chan_at i;
  match c with
  | Some c => worker_loop i c (buf c)
  | None => ret Waiting
  end.

Definition startWorker (i : Z) : M WorkerEnd :=
  do st <- get;
  let stmt := USE (space (cp st)) in
  do err <- exec i stmt;
  match err with
  | Some e => do_ emit (EvLogError e); ret Returned
  | None => drain i
  end.

(** ** NewClientPool *)

(** The error of [strconv.Atoi] on [s] (its text is not rendered). *)
Definition AtoiError (s : string) : error := LibError (String.append "strconv.Atoi: parsing " s).

(** The first loop: every entry of the list must split at [":"] into
    exactly two pieces, the second one a number. *)
Fixpoint parse_hosts (addrs : list string) (hosts : list HostAddress)
  : sum (list HostAddress) error :=
  match addrs with
  | [] => inl hosts
  | addr :: rest =>
      match Split addr ":"%char with
      | [host; port_text] =>
          match Atoi port_text with
          | Some port => parse_hosts rest (hosts ++ [mkHostAddress host port])
          | None => inr (AtoiError port_text)
          end
      | _ => inr (Errorf "Invalid address: %s" [ArgStr addr])
      end
  end.

(** [pool.pool.GetSession(user, password)]. *)
Definition GetSession (c : ConnectionPool) (user password : string)
  : sum Session error * ConnectionPool :=
  (grant c (granted c) user password,
   mkConnectionPool (grant c) (S (granted c)) (poolClosed c)).

(** [make([]T, n)]: [n] nil slots; a negative [n] panics. *)
Definition make_slice {A} (n : Z) : option (list (option A)) :=
  if n <? 0 then None else Some (replicate (Z.to_nat n) None).

(** The pool under construction and the running slot index [j]. *)
Record Building := mkBuilding {
  b_pool : ClientPool;
  b_j : Z
}.

Inductive Outcome (A : Type) :=
| Go_on (a : A)
| Return_error (e : error)
| Panicked.
Arguments Go_on {A} a.
Arguments Return_error {A} e.
Arguments Panicked {A}.

(** One pass of the inner loop body: get a session into slot [j], make the
    queue of slot [j], advance [j].  The slot is assigned before the error
    is looked at, and assigning outside the slice panics. *)
Definition fill_slot (settings : NebulaClientSettings) (b : Building) : Outcome Building :=
  let p := b_pool b in
  let j := b_j b in
  let '(got, pool') := GetSession (pool p) (User (Connection settings)) (Password (Connection settings)) in
  match at_index (Sessions p) j with
  | None => Panicked
  | Some _ =>
      match got with
      | inr err => Return_error err
      | inl s =>
          if ChannelBufferSize settings <? 0 then Panicked
          else
            match at_index (requestChs p) j with
            | None => Panicked
            | Some _ =>
                let p' :=
                  with_requestChs
                    (<[Z.to_nat j := Some (mkChan [] (ChannelBufferSize settings) false)]>
                       (requestChs p))
                    (with_Sessions (<[Z.to_nat j := Some s]> (Sessions p))
                       (with_pool pool' p)) in
                Go_on (mkBuilding p' (j + 1))
            end
      end
  end.

(** [for i := 0; i < *settings.Concurrency; i++], [n] passes. *)
Fixpoint fill_inner (settings : NebulaClientSettings) (n : nat) (b : Building)
  : Outcome Building :=
  match n with
  | O => Go_on b
  | S n' =>
      match fill_slot settings b with
      | Go_on b' => fill_inner settings n' b'
      | Return_error e => Return_error e
      | Panicked => Panicked
      end
  end.

(** [for k := 0; k < len(addrs); k++], [m] passes. *)
Fixpoint fill_outer (settings : NebulaClientSettings) (m : nat) (b : Building)
  : Outcome Building :=
  match m with
  | O => Go_on b
  | S m' =>
      match fill_inner settings (Z.to_nat (Concurrency settings)) b with
      | Go_on b' => fill_outer settings m' b'
      | Return_error e => Return_error e
      | Panicked => Panicked
      end
  end.

(** What [NewClientPool] returns: the pair of a pool pointer and an error,
    or nothing when it panics. *)
Definition NewClientPool (cluster : Cluster) (settings : NebulaClientSettings) (statsCh_ : nat)
  : option (option ClientPool * option error) :=
  let addrs := Split (Address (Connection settings)) ","%char in
  match parse_hosts addrs [] with
  | inr err => Some (None, Some err)
  | inl hosts =>
      let conf := mkPoolConfig 0 0
                    (wrap64 (Z.of_nat (length addrs) * Concurrency settings)) 1 in
      match cluster hosts conf with
      | inr err => Some (None, Some err)
      | inl connPool =>
          let concurrency_ := wrap64 (Concurrency settings * Z.of_nat (length addrs)) in
          match make_slice concurrency_, make_slice concurrency_ with
          | Some sessions, Some chans =>
              let pool_ :=
                mkClientPool (Retry_ settings) concurrency_ (Space settings)
                  (PostStart settings) (PreStop settings) statsCh_ connPool
                  sessions chans in
              match fill_outer settings (length addrs) (mkBuilding pool_ 0) with
              | Go_on b => Some (Some (b_pool b), None)
              | Return_error err => Some (None, Some err)
              | Panicked => None
              end
          | _, _ => None
          end
      end
  end.

(** ** Running the model on small inputs *)

Definition ok_reply : Reply := ReplyResp (mkResultSet ErrorCode_SUCCEEDED "" 120).

Definition always (r : Reply) : Session :=
  mkSession (fun _ _ => r) (fun _ _ => 5000) 0 false.

Definition demo_cluster : Cluster :=
  fun _ _ => inl (mkConnectionPool (fun _ _ _ => inl (always ok_reply)) 0 false).

Definition demo_settings (address : string) (conc : Z) : NebulaClientSettings :=
  mkSettings 2 conc 16 "basic" (mkConnection "root" "nebula" address) None None.


(** A pool of one session: its worker has index 0, the queue holds [q]. *)
Definition demo_pool (s : Session) (q : list ClientRequest) (queue_closed : bool)
    (pre_stop : option NebulaPreStop) : ClientPool :=
  mkClientPool 2 1 "basic" None pre_stop 7
    (mkConnectionPool (fun _ _ _ => inl s) 1 false)
    [Some s] [Some (mkChan q 16 queue_closed)].

Definition demo_state (p : ClientPool) (delays : list Z) : State :=
  mkState p 0 (fun _ => delays) [].

Definition demo_request (stmt : string) (ch : nat) : ClientRequest :=
  mkClientRequest stmt ch [mkData ["a"; "1"] 10; mkData ["b"; "2"] 20].

Definition scripted (f : nat -> Reply) : Session :=
  mkSession (fun n _ => f n) (fun _ _ => 5000) 0 false.

(** ** Vocabulary of the statements below *)

(** The state right after [p.Sessions[i].Execute(stmt)] on session [s]. *)
Definition after_Execute (i : Z) (stmt : string) (s : Session) (st : State) : State :=
  mkState
    (with_Sessions
       (<[Z.to_nat i := Some (mkSession (respond s) (rtt s) (S (calls s)) (released s))]>
          (Sessions (cp st)))
       (cp st))
    (clock st + rtt s (calls s) stmt)
    (timer st)
    (trace st ++ [EvExecute i stmt]).

(** The state after sleeping for [d]. *)
Definition slept (d : Z) (st : State) : State :=
  mkState (cp st) (clock st + d) (timer st) (trace st).

(** The error the closure builds from a response. *)
Definition retryErr_of (res : ResultSet) : error :=
  Errorf "%d:%s" [ArgCode (GetErrorCode res); ArgStr (GetErrorMsg res)].

(** Appending events to the trace and nothing else. *)
Definition logged (evs : list Event) (st : State) : State :=
  mkState (cp st) (clock st) (timer st) (trace st ++ evs).

(** A failed attempt of the bounded class: no success, and when there is a
    response it has neither a permanent code nor the back-pressure text. *)
Definition bounded_failure (r : Reply) : bool :=
  negb (succeeded r) &&
  match reply_resp r with
  | Some res =>
      negb (isPermanentError (GetErrorCode res)) &&
      negb (Contains (GetErrorMsg res) raft_buffer_full)
  | None => true
  end.


(** What the shutdown loop does from slot [i] on, given the slots. *)
Fixpoint slots_events (i : Z) (ss : list (option Session)) (cs : list (option Chan))
  : list Event :=
  match ss, cs with
  | s :: ss', c :: cs' =>
      match s with Some _ => [EvRelease i] | None => [] end ++
      match c with Some _ => [EvCloseCh i] | None => [] end ++
      slots_events (i + 1) ss' cs'
  | _, _ => []
  end.

Definition is_pre_stop_event (e : Event) : Prop :=
  match e with
  | EvExecute _ _ | EvLogError _ => True
  | _ => False
  end.

(** Inputs for the back-pressure text under a permanent code. *)
Definition syntax_error_near_raft : Reply :=
  ReplyResp (mkResultSet ErrorCode_E_SYNTAX_ERROR
               "SyntaxError: syntax error near `raft buffer is full'" 0).

Definition raft_reply : Reply :=
  ReplyResp (mkResultSet (-1005) "Storage Error: raft buffer is full." 0).

(** The error the closure returns for a failed attempt: the transport
    error, or the code and message of the response when there is one. *)
Definition retryErr_for (r : Reply) : error :=
  match r with
  | ReplyResp res | ReplyBoth res _ => retryErr_of res
  | ReplyErr err => err
  end.

Definition storage_error : Reply :=
  ReplyResp (mkResultSet (-1005) "Storage Error: part not found." 0).

(** The state after the worker of slot [i] took the head off its queue,
    [q] being what is left in it. *)
Definition dequeued (i : Z) (c : Chan) (q : list ClientRequest) (st : State) : State :=
  mkState
    (with_requestChs
       (<[Z.to_nat i := Some (mkChan q (cap c) (closed c))]> (requestChs (cp st)))
       (cp st))
    (clock st) (timer st) (trace st).

(** A released session, a closed queue. *)
Definition let_go (s : Session) : Session :=
  mkSession (respond s) (rtt s) (calls s) true.

Definition shut (c : Chan) : Chan := mkChan (buf c) (cap c) true.

(** The state after the shutdown loop went through slot [k]. *)
Definition slot_closed (k : nat) (s : option Session) (c : option Chan) (st : State) : State :=
  mkState
    (with_requestChs (<[k := shut <$> c]> (requestChs (cp st)))
       (with_Sessions (<[k := let_go <$> s]> (Sessions (cp st))) (cp st)))
    (clock st) (timer st)
    (trace st ++ match s with Some _ => [EvRelease (Z.of_nat k)] | None => [] end
              ++ match c with Some _ => [EvCloseCh (Z.of_nat k)] | None => [] end).

(** A pool of two sessions with their queues, without a pre-stop batch. *)
Definition demo_pool2 (s : Session) : ClientPool :=
  mkClientPool 2 2 "basic" None None 7
    (mkConnectionPool (fun _ _ _ => inl s) 2 false)
    [Some s; Some s] [Some (mkChan [] 16 false); Some (mkChan [] 16 false)].

(** What the pre-stop step of [Close] leaves behind: events [pre] of the
    batch, the queues and the slots as they were. *)
Definition pre_stop_done (st st_a : State) (pre : list Event) : Prop :=
  trace st_a = trace st ++ pre /\
  Forall is_pre_stop_event pre /\
  requestChs (cp st_a) = requestChs (cp st) /\
  concurrency (cp st_a) = concurrency (cp st) /\
  length (Sessions (cp st_a)) = length (Sessions (cp st)) /\
  (forall k cs, slots_events k (Sessions (cp st_a)) cs = slots_events k (Sessions (cp st)) cs).

(** While the slots are being filled: the slots below [j] hold a session
    and a queue, and [j] has not run past the slices of length [L]. *)
Definition filled (b : Building) : Prop :=
  forall k, (k < Z.to_nat (b_j b))%nat ->
    (exists s, Sessions (b_pool b) !! k = Some (Some s)) /\
    (exists c, requestChs (b_pool b) !! k = Some (Some c)).

Definition building_inv (L : nat) (c : Z) (b : Building) : Prop :=
  0 <= b_j b /\
  (Z.to_nat (b_j b) <= L)%nat /\
  length (Sessions (b_pool b)) = L /\
  length (requestChs (b_pool b)) = L /\
  concurrency (b_pool b) = c /\
  filled b.



(** ** Init *)

(** The loop [for i := 0; i < p.concurrency; i++ { go ... p.startWorker(i) }],
    [n] passes from [i]: the indices of the workers it starts, in order.
    The workers run on their own; [Init] does not wait for them. *)
Fixpoint Init_loop (n : nat) (i : Z) : list Z :=
  match n with
  | O => []
  | S n' => i :: Init_loop n' (i + 1)
  end.

(** [Init] returns its error and the workers it started.  [ParseDuration]
    is [time.ParseDuration] with its error dropped, as the source drops it
    (the duration is 0 then); [time.Sleep] returns at once for a duration
    that is not positive.  Dereferencing a nil [AfterPeriod] panics. *)
Definition Init (ParseDuration : string -> Z) : M (option error * list Z) :=
  do st <- get;
  let p := cp st in
  let i := getActiveConnIdx p in
  if i =? -1 then ret (Some (Errorf "no available session." []), [])
  else
    do err <-
      match postStart p with
      | Some ps =>
          match PostStart_Commands ps with
          | Some commands => exec i commands
          | None => ret None
          end
      | None => ret None
      end;
    match err with
    | Some e => ret (Some e, [])
    | None =>
        do_ match postStart p with
            | Some ps =>
                match AfterPeriod ps with
                | Some text => elapse (Z.max 0 (ParseDuration text))
                | None => panic
                end
            | None => ret tt
            end;
        do err <- exec i (USE (space p));
        match err with
        | Some e => ret (Some e, [])
        | None => ret (None, Init_loop (Z.to_nat (concurrency p)) 0)
        end
    end.

(** A pool like [demo_pool] with a post-start batch. *)
Definition demo_pool_post (s : Session) (post : option NebulaPostStart) : ClientPool :=
  mkClientPool 2 1 "basic" post None 7
    (mkConnectionPool (fun _ _ _ => inl s) 1 false)
    [Some s] [Some (mkChan [] 16 false)].

(** A pool whose first slot is nil: the session in the second slot is the
    active one. *)
Definition demo_pool_gap (s : Session) (post : option NebulaPostStart) : ClientPool :=
  mkClientPool 2 2 "basic" post None 7
    (mkConnectionPool (fun _ _ _ => inl s) 1 false)
    [None; Some s] [None; Some (mkChan [] 16 false)].

Definition demo_durations (text : string) : Z :=
  if String.eqb text "1s" then 1000000000 else 0.

(** The post-start batch of a pool; a batch that is not configured behaves
    as the empty one, which [exec] skips. *)
Definition post_commands (p : ClientPool) : string :=
  match postStart p with
  | Some ps =>
      match PostStart_Commands ps with
      | Some commands => commands
      | None => ""
      end
  | None => ""
  end.

(** The state and the session after [exec i stmt] on session [s]. *)
Definition after_exec (i : Z) (stmt : string) (s : Session) (st : State) : State :=
  if (String.length stmt =? 0)%nat then st else after_Execute i stmt s st.

Definition session_after_exec (stmt : string) (s : Session) : Session :=
  if (String.length stmt =? 0)%nat then s
  else mkSession (respond s) (rtt s) (S (calls s)) (released s).

(** Whether [exec] of [stmt] on session [s] returns nil. *)
Definition exec_ok (stmt : string) (s : Session) : bool :=
  (String.length stmt =? 0)%nat || succeeded (respond s (calls s) stmt).

(** The state after the settle period of [Init]. *)
Definition settled (ParseDuration : string -> Z) (p : ClientPool) (st : State) : State :=
  match postStart p with
  | Some ps =>
      match AfterPeriod ps with
      | Some text => slept (Z.max 0 (ParseDuration text)) st
      | None => st
      end
  | None => st
  end.

(** [0, 1, ..., n - 1] as worker indices. *)
Definition worker_indices (n : Z) : list Z := Z.of_nat <$> seq 0 (Z.to_nat n).

(** The post-start settings are complete: a configured post-start has its
    [AfterPeriod]. *)
Definition post_start_complete (p : ClientPool) : Prop :=
  forall ps, postStart p = Some ps -> AfterPeriod ps <> None.

(** ** Vocabulary for a request's attempts *)

(** The pool after [n] more [Execute] calls on session [s] of slot [i]:
    the session has counted them, everything else is as it was. *)
Definition advanced (i : Z) (s : Session) (n : nat) (p : ClientPool) : ClientPool :=
  with_Sessions
    (<[Z.to_nat i := Some (mkSession (respond s) (rtt s) (calls s + n) (released s))]>
       (Sessions p))
    p.

(** The time [n] successive calls of [stmt] take on a session with the
    round-trip times [t], from call number [from] on. *)
Fixpoint rtt_sum (t : nat -> string -> Z) (stmt : string) (from n : nat) : Z :=
  match n with
  | O => 0
  | S n' => t from stmt + rtt_sum t stmt (S from) n'
  end.

Definition delay_sum (delays : list Z) : Z := fold_right Z.add 0 delays.

(** The records sent on channels, among the events of a trace. *)
Definition is_send (e : Event) : bool :=
  match e with
  | EvSendErr _ _ | EvSendStats _ _ => true
  | _ => false
  end.

Definition sends (t : list Event) : list Event := List.filter is_send t.

(** The one record a request leaves: a failure on its own error channel
    with its payload, or statistics of its payload on the shared channel.
    The sentinel leaves an empty record without error. *)
Definition outcome_of (stats : nat) (data : ClientRequest) (ev : Event) : Prop :=
  if String.eqb (Stmt data) STAT_FILEDONE then
    ev = EvSendErr (ErrCh data) (mkErrData None [])
  else
    (exists e, ev = EvSendErr (ErrCh data) (mkErrData (Some e) (Request_Data data))) \/
    (exists latency time,
        ev = EvSendStats stats
               (NewSuccessStats latency time (Z.of_nat (length (Request_Data data)))
                  (importedBytes (Request_Data data)))).

(** A failed attempt with the back-pressure text under a code that is not
    permanent. *)
Definition backpressure_failure (r : Reply) : bool :=
  negb (succeeded r) &&
  match reply_resp r with
  | Some res =>
      negb (isPermanentError (GetErrorCode res)) &&
      Contains (GetErrorMsg res) raft_buffer_full
  | None => false
  end.

(** The pre-stop batch of a pool; a batch that is not configured behaves as
    the empty one. *)
Definition pre_stop_commands (p : ClientPool) : string :=
  match preStop p with
  | Some ps =>
      match PreStop_Commands ps with
      | Some commands => commands
      | None => ""
      end
  | None => ""
  end.

(** What [Close] does after its pre-stop step. *)
Definition Close_rest_of (n : Z) : M unit :=
  bind (Close_loop (Z.to_nat n) 0) (fun _ => pool_Close).

(** ** Vocabulary for the constructor *)

(** The host an entry of the address list stands for. *)
Definition host_of (addr : string) : option HostAddress :=
  match Split addr ":"%char with
  | [host; port_text] =>
      match Atoi port_text with
      | Some port => Some (mkHostAddress host port)
      | None => None
      end
  | _ => None
  end.

(** While the slots are filled: slot [k] below [j] holds the session of
    the [k]-th acquisition and a new queue, and the settings copied into
    the pool [p0] at the start are still there. *)
Definition fresh_inv (settings : NebulaClientSettings)
    (gr : nat -> string -> string -> sum Session error) (g0 : nat)
    (p0 : ClientPool) (b : Building) : Prop :=
  0 <= b_j b /\
  grant (pool (b_pool b)) = gr /\
  granted (pool (b_pool b)) = (g0 + Z.to_nat (b_j b))%nat /\
  (retry (b_pool b), space (b_pool b), postStart (b_pool b), preStop (b_pool b),
   statsCh (b_pool b))
  = (retry p0, space p0, postStart p0, preStop p0, statsCh p0) /\
  forall k, (k < Z.to_nat (b_j b))%nat ->
    (exists s,
        gr (g0 + k)%nat (User (Connection settings)) (Password (Connection settings)) = inl s /\
        Sessions (b_pool b) !! k = Some (Some s)) /\
    requestChs (b_pool b) !! k = Some (Some (mkChan [] (ChannelBufferSize settings) false)).

(** The state a new pool starts in. *)
Definition state_of (p : ClientPool) (now : Z) (delays : Z -> list Z) : State :=
  mkState p now delays [].

(** The bytes of a payload, added up without wrap-around. *)
Definition total_bytes (data : list Data) : Z :=
  fold_right (fun d acc => Bytes d + acc) 0 data.

(** * Properties *)

(** ** The library functions on small inputs *)

Example Split_two_hosts :
  Split "h1:9669,h2:9669" ","%char = ["h1:9669"; "h2:9669"].
Proof. reflexivity. Qed.

Example Split_empty : Split "" ","%char = [""].
Proof. reflexivity. Qed.

Example Split_trailing : Split "h1:9669," ","%char = ["h1:9669"; ""].
Proof. reflexivity. Qed.

Example Atoi_port : Atoi "9669" = Some 9669.
Proof. reflexivity. Qed.

Example Atoi_not_a_number : Atoi "96x9" = None.
Proof. reflexivity. Qed.

Example Atoi_only_sign : Atoi "-" = None.
Proof. reflexivity. Qed.

Example Contains_raft :
  Contains "E_WRITE_STALLED: raft buffer is full, try later" "raft buffer is full" = true.
Proof. reflexivity. Qed.

Example NewClientPool_two_hosts :
  match NewClientPool demo_cluster (demo_settings "h1:9669,h2:9669" 1) 0 with
  | Some (Some p, None) =>
      concurrency p = 2 /\ length (Sessions p) = 2%nat /\ length (requestChs p) = 2%nat
  | _ => False
  end.
Proof. vm_compute. auto. Qed.

Example NewClientPool_bad_port :
  NewClientPool demo_cluster (demo_settings "h1:9669,h2:port" 1) 0
  = Some (None, Some (AtoiError "port")).
Proof. reflexivity. Qed.

(** ** The monad *)

Lemma bind_Some {A B} (m : M A) (k : A -> M B) st a st' :
  m st = Some (a, st') -> bind m k st = k a st'.
Proof. intros H. unfold bind. now rewrite H. Qed.

Lemma at_index_insert {A} (l : list A) (i : Z) (x y : A) :
  at_index l i = Some x -> at_index (<[Z.to_nat i := y]> l) i = Some y.
Proof.
  unfold at_index. destruct (i <? 0); [discriminate|].
  intros H. apply list_lookup_insert_eq. eapply lookup_lt_Some, H.
Qed.

Lemma Execute_run i stmt st s :
  at_index (Sessions (cp st)) i = Some (Some s) ->
  Execute i stmt st = Some (respond s (calls s) stmt, after_Execute i stmt s st).
Proof.
  intros H. unfold Execute, session_at, bind, get. cbn. now rewrite H.
Qed.

Lemma session_after_Execute i stmt st s :
  at_index (Sessions (cp st)) i = Some (Some s) ->
  at_index (Sessions (cp (after_Execute i stmt s st))) i
  = Some (Some (mkSession (respond s) (rtt s) (S (calls s)) (released s))).
Proof. intros H. cbn. eapply at_index_insert, H. Qed.

(** ** exec *)

(** C10. For every index [i], also one that is out of range or names a nil
    slot, [exec i ""] returns nil and leaves the state as it was: no
    [Execute] call is made, nothing is logged, no session is touched. *)
Theorem exec_empty_statement_is_noop (i : Z) (st : State) :
  exec i "" st = Some (None, st).
Proof. reflexivity. Qed.

(** ** The retry classification *)

Lemma Retry_unfold {V} (operation : V -> M (option OpError * V)) b v :
  Retry operation b v =
  bind (operation v) (fun r =>
    match r with
    | (None, v') => ret (None, v')
    | (Some (Permanent e), v') => ret (Some e, v')
    | (Some (Retryable e), v') =>
        match b with
        | [] => ret (Some e, v')
        | next :: b' => bind (elapse next) (fun _ => Retry operation b' v')
        end
    end).
Proof. destruct b; reflexivity. Qed.






Lemma operation_backpressure i data v st s res :
  at_index (Sessions (cp st)) i = Some (Some s) ->
  succeeded (respond s (calls s) (Stmt data)) = false ->
  reply_resp (respond s (calls s) (Stmt data)) = Some res ->
  isPermanentError (GetErrorCode res) = false ->
  Contains (GetErrorMsg res) raft_buffer_full = true ->
  operation i data v st =
  Some ((Some (Retryable (retryErr_of res)),
         mkCaptured (reply_err (respond s (calls s) (Stmt data))) (Some res) (retry (cp st))),
        after_Execute i (Stmt data) s st).
Proof.
  intros Hs Hfail Hr Hperm Hraft. unfold operation.
  rewrite (bind_Some _ _ _ _ _ (Execute_run _ _ _ _ Hs)).
  unfold bind, get. cbn. rewrite Hfail, Hr. cbn.
  now rewrite Hperm, Hraft.
Qed.

(** C2, as the code has it. For every failed attempt whose response has a
    code other than the two permanent ones and a message containing "raft
    buffer is full", the closure sets the retry counter to [p.retry],
    whatever it held, and returns a retryable error; [backoff.Retry] then
    sleeps and attempts again when the back-off grants another delay, and
    ends with that error when the back-off has reached its elapsed-time
    cap. *)
Theorem backpressure_resets_retry_counter
    (i : Z) (data : ClientRequest) (v : Captured) (st : State)
    (s : Session) (res : ResultSet) :
  at_index (Sessions (cp st)) i = Some (Some s) ->
  succeeded (respond s (calls s) (Stmt data)) = false ->
  reply_resp (respond s (calls s) (Stmt data)) = Some res ->
  isPermanentError (GetErrorCode res) = false ->
  Contains (GetErrorMsg res) raft_buffer_full = true ->
  let v1 := mkCaptured (reply_err (respond s (calls s) (Stmt data))) (Some res) (retry (cp st)) in
  let st1 := after_Execute i (Stmt data) s st in
  operation i data v st = Some ((Some (Retryable (retryErr_of res)), v1), st1) /\
  c_retry v1 = retry (cp st) /\
  (forall next b,
      Retry (operation i data) (next :: b) v st
      = Retry (operation i data) b v1 (slept next st1)) /\
  Retry (operation i data) [] v st = Some ((Some (retryErr_of res), v1), st1).
Proof.
  intros Hs Hfail Hr Hperm Hraft v1 st1.
  pose proof (operation_backpressure i data v st s res Hs Hfail Hr Hperm Hraft) as Hop.
  repeat split.
  - exact Hop.
  - intros next b. rewrite Retry_unfold. now rewrite (bind_Some _ _ _ _ _ Hop).
  - rewrite Retry_unfold. now rewrite (bind_Some _ _ _ _ _ Hop).
Qed.

Lemma backpressure_resets_retry_counter_witness :
  operation 0 (demo_request "INSERT 1" 3) (mkCaptured None None 0)
    (demo_state (demo_pool (always raft_reply) [] false None) [])
  = Some ((Some (Retryable (retryErr_of (mkResultSet (-1005) "Storage Error: raft buffer is full." 0))),
           mkCaptured None (Some (mkResultSet (-1005) "Storage Error: raft buffer is full." 0)) 2),
          after_Execute 0 "INSERT 1" (always raft_reply)
            (demo_state (demo_pool (always raft_reply) [] false None) [])).
Proof.
  refine (proj1 (backpressure_resets_retry_counter 0 (demo_request "INSERT 1" 3)
                   (mkCaptured None None 0)
                   (demo_state (demo_pool (always raft_reply) [] false None) [])
                   (always raft_reply) _ _ _ _ _ _));
    reflexivity.
Defined.

(** C2 as claimed fails: a response whose message contains the
    back-pressure text but whose code is the syntax-error code is
    classified as permanent.  With a budget [p.retry = 2] and a counter
    that stands at 1, the counter stays at 1, and the loop ends after this
    one attempt although the back-off would grant two more delays. *)
Lemma backpressure_text_under_permanent_code :
  let data := demo_request "INSERT 1" 3 in
  let st := demo_state (demo_pool (always syntax_error_near_raft) [] false None) [] in
  let res := mkResultSet ErrorCode_E_SYNTAX_ERROR
               "SyntaxError: syntax error near `raft buffer is full'" 0 in
  reply_resp (respond (always syntax_error_near_raft) 0 (Stmt data)) = Some res /\
  Contains (GetErrorMsg res) raft_buffer_full = true /\
  retry (cp st) = 2 /\
  operation 0 data (mkCaptured None None 1) st
  = Some ((Some (Permanent (retryErr_of res)), mkCaptured None (Some res) 1),
          after_Execute 0 "INSERT 1" (always syntax_error_near_raft) st) /\
  Retry (operation 0 data) [1000; 1500] (mkCaptured None None 1) st
  = Some ((Some (retryErr_of res), mkCaptured None (Some res) 1),
          after_Execute 0 "INSERT 1" (always syntax_error_near_raft) st).
Proof. repeat split. Qed.

(** ** One request: the retry loop and the record it leaves *)

Lemma succeeded_inv r :
  succeeded r = true ->
  exists res, r = ReplyResp res /\ IsSucceed res = true.
Proof. destruct r; cbn; try discriminate. eauto. Qed.

Lemma operation_run i data v st s :
  at_index (Sessions (cp st)) i = Some (Some s) ->
  let r := respond s (calls s) (Stmt data) in
  exists oe n,
    operation i data v st
    = Some ((oe, mkCaptured (reply_err r) (reply_resp r) n), after_Execute i (Stmt data) s st) /\
    (oe = None <-> succeeded r = true).
Proof.
  intros Hs r. unfold operation.
  rewrite (bind_Some _ _ _ _ _ (Execute_run _ _ _ _ Hs)).
  unfold bind, get. cbn. fold r.
  destruct (succeeded r) eqn:Hsucc.
  - do 2 eexists. split; [reflexivity|]. tauto.
  - destruct r as [res | err | res err]; cbn;
      repeat match goal with
             | |- context [if ?c then _ else _] => destruct c
             end;
      do 2 eexists; (split; [reflexivity|]); split; discriminate.
Qed.

Lemma Retry_resolves i data :
  forall b v st s,
    at_index (Sessions (cp st)) i = Some (Some s) ->
    exists m oe v' st',
      (m <= length b)%nat /\
      Retry (operation i data) b v st = Some ((oe, v'), st') /\
      trace st' = trace st ++ replicate (S m) (EvExecute i (Stmt data)) /\
      c_err v' = reply_err (respond s (calls s + m) (Stmt data)) /\
      c_resp v' = reply_resp (respond s (calls s + m) (Stmt data)) /\
      statsCh (cp st') = statsCh (cp st).
Proof.
  induction b as [|next b IH]; intros v st s Hs;
    destruct (operation_run i data v st s Hs) as (oe & n & Hop & _);
    rewrite Retry_unfold, (bind_Some _ _ _ _ _ Hop).
  - exists 0%nat. rewrite Nat.add_0_r.
    destruct oe as [[e|e]|]; do 3 eexists; (split; [lia|]); (split; [reflexivity|]);
      cbn; auto.
  - destruct oe as [[e|e]|].
    + pose proof (session_after_Execute i (Stmt data) st s Hs) as Hs'.
      destruct (IH (mkCaptured (reply_err (respond s (calls s) (Stmt data)))
                      (reply_resp (respond s (calls s) (Stmt data))) n)
                  (slept next (after_Execute i (Stmt data) s st)) _ Hs')
        as (m & oe' & v' & st' & Hm & Hrun & Htr & Herr & Hresp & Hch).
      exists (S m), oe', v', st'. cbn in Herr, Hresp.
      replace (calls s + S m)%nat with (S (calls s + m)) by lia.
      split; [cbn; lia|]. split; [exact Hrun|].
      split; [|auto].
      rewrite Htr. cbn. now rewrite <- app_assoc.
    + exists 0%nat. rewrite Nat.add_0_r.
      do 3 eexists. split; [lia|]. split; [reflexivity|]. cbn; auto.
    + exists 0%nat. rewrite Nat.add_0_r.
      do 3 eexists. split; [lia|]. split; [reflexivity|]. cbn; auto.
Qed.

Lemma settle_success i data now v st res :
  c_err v = None -> c_resp v = Some res -> IsSucceed res = true ->
  settle i data now v st
  = Some (tt, logged [EvSendStats (statsCh (cp st))
                        (NewSuccessStats (GetLatency res) (Z.quot (clock st - now) 1000)
                           (Z.of_nat (length (Request_Data data)))
                           (importedBytes (Request_Data data)))] st).
Proof.
  intros He Hr Hs. unfold settle, bind, get, ret, emit, logged.
  rewrite He, Hr, Hs. reflexivity.
Qed.

Lemma settle_failure i data now v st r :
  c_err v = reply_err r -> c_resp v = reply_resp r -> succeeded r = false ->
  exists e,
    settle i data now v st
    = Some (tt, logged [EvSendErr (ErrCh data) (mkErrData (Some e) (Request_Data data))] st).
Proof.
  intros He Hr Hs. unfold settle, bind, get, ret, emit, logged.
  rewrite He, Hr. destruct r as [res | err | res err]; cbn in *; eauto.
  rewrite Hs. cbn. eauto.
Qed.

(** C5. A worker that holds a session resolves every request it takes up,
    and what the request adds to the trace is its attempts, [m + 1] of
    them, followed by exactly one record.  When the last attempt succeeded
    the record is a success-stats record on the shared statistics channel
    (the latency of the last response, the wall-clock time since the
    request was taken up divided by 1000, the number of records and their
    bytes) and nothing goes to the error channel; otherwise it is one
    [ErrData] with an error and the request's payload on the request's
    error channel and nothing goes to the statistics channel. *)
Theorem serve_publishes_exactly_one_outcome
    (i : Z) (data : ClientRequest) (st : State) (s : Session) :
  at_index (Sessions (cp st)) i = Some (Some s) ->
  exists (m : nat) (st' : State) (outcome : Event),
    serve i data st = Some (tt, st') /\
    trace st' = trace st ++ replicate (S m) (EvExecute i (Stmt data)) ++ [outcome] /\
    let last := respond s (calls s + m) (Stmt data) in
    (succeeded last = true ->
       exists res, last = ReplyResp res /\
         outcome = EvSendStats (statsCh (cp st))
                     (NewSuccessStats (GetLatency res) (Z.quot (clock st' - clock st) 1000)
                        (Z.of_nat (length (Request_Data data)))
                        (importedBytes (Request_Data data)))) /\
    (succeeded last = false ->
       exists e, outcome = EvSendErr (ErrCh data) (mkErrData (Some e) (Request_Data data))).
Proof.
  intros Hs.
  destruct (Retry_resolves i data (timer st (clock st))
              (mkCaptured None None (retry (cp st))) st s Hs)
    as (m & oe & v' & st1 & _ & Hrun & Htr & Herr & Hresp & Hch).
  unfold serve, NewExponentialBackOff. unfold bind at 1 2, get, ret. cbn.
  rewrite (bind_Some _ _ _ _ _ Hrun). cbn.
  destruct (succeeded (respond s (calls s + m) (Stmt data))) eqn:Hsucc.
  - destruct (succeeded_inv _ Hsucc) as (res & Hres & Hok).
    rewrite Hres in Herr, Hresp. cbn in Herr, Hresp.
    rewrite (settle_success i data (clock st) v' st1 res Herr Hresp Hok).
    exists m. do 2 eexists. split; [reflexivity|]. split.
    + cbn. rewrite Htr. now rewrite <- app_assoc.
    + cbn. rewrite Hsucc. split; [|discriminate]. intros _. exists res. rewrite Hch. auto.
  - destruct (settle_failure i data (clock st) v' st1 _ Herr Hresp Hsucc) as (e & Hset).
    rewrite Hset.
    exists m. do 2 eexists. split; [reflexivity|]. split.
    + cbn. rewrite Htr. now rewrite <- app_assoc.
    + cbn. rewrite Hsucc. split; [discriminate|]. intros _. eauto.
Qed.

Lemma serve_publishes_exactly_one_outcome_witness :
  exists (m : nat) (st' : State) (outcome : Event),
    serve 0 (demo_request "INSERT 1" 3)
      (demo_state (demo_pool (always ok_reply) [] false None) [1000]) = Some (tt, st') /\
    trace st' = replicate (S m) (EvExecute 0 "INSERT 1") ++ [outcome].
Proof.
  destruct (serve_publishes_exactly_one_outcome 0 (demo_request "INSERT 1" 3)
              (demo_state (demo_pool (always ok_reply) [] false None) [1000])
              (always ok_reply) eq_refl)
    as (m & st' & outcome & Hrun & Htr & _).
  exists m, st', outcome. split; [exact Hrun | exact Htr].
Defined.

(** ** The bounded class *)

Lemma operation_bounded i data v st s :
  at_index (Sessions (cp st)) i = Some (Some s) ->
  let r := respond s (calls s) (Stmt data) in
  bounded_failure r = true ->
  operation i data v st
  = Some ((Some (if c_retry v <=? 0 then Permanent (retryErr_for r)
                 else Retryable (retryErr_for r)),
           mkCaptured (reply_err r) (reply_resp r)
             (if c_retry v <=? 0 then c_retry v else c_retry v - 1)),
          after_Execute i (Stmt data) s st).
Proof.
  intros Hs r Hb. unfold operation.
  rewrite (bind_Some _ _ _ _ _ (Execute_run _ _ _ _ Hs)).
  unfold bind, get. cbn. fold r.
  unfold bounded_failure in Hb. apply andb_true_iff in Hb as [Hns Hclass].
  apply negb_true_iff in Hns. rewrite Hns.
  destruct r as [res | err | res err]; cbn in *.
  - apply andb_true_iff in Hclass as [Hp Hc].
    apply negb_true_iff in Hp, Hc. rewrite Hp, Hc.
    now destruct (c_retry v <=? 0).
  - now destruct (c_retry v <=? 0).
  - apply andb_true_iff in Hclass as [Hp Hc].
    apply negb_true_iff in Hp, Hc. rewrite Hp, Hc.
    now destruct (c_retry v <=? 0).
Qed.

Lemma bounded_failure_not_succeeded r : bounded_failure r = true -> succeeded r = false.
Proof.
  unfold bounded_failure. intros H. apply andb_true_iff in H as [H _].
  now apply negb_true_iff in H.
Qed.

Lemma Retry_bounded i data :
  forall b v st s,
    at_index (Sessions (cp st)) i = Some (Some s) ->
    (forall n, (calls s <= n)%nat -> bounded_failure (respond s n (Stmt data)) = true) ->
    exists e v' st' r,
      Retry (operation i data) b v st = Some ((Some e, v'), st') /\
      trace st' = trace st ++
        replicate (Nat.min (Z.to_nat (c_retry v) + 1) (length b + 1)) (EvExecute i (Stmt data)) /\
      c_err v' = reply_err r /\ c_resp v' = reply_resp r /\ succeeded r = false.
Proof.
  induction b as [|next b IH]; intros v st s Hs Hall;
    pose proof (operation_bounded i data v st s Hs (Hall _ (Nat.le_refl _))) as Hop;
    pose proof (bounded_failure_not_succeeded _ (Hall _ (Nat.le_refl _))) as Hns;
    rewrite Retry_unfold, (bind_Some _ _ _ _ _ Hop).
  - replace (Nat.min (Z.to_nat (c_retry v) + 1) (length (@nil Z) + 1)) with 1%nat
      by (cbn [length]; lia).
    destruct (c_retry v <=? 0); do 4 eexists;
      (split; [reflexivity|]); (split; [reflexivity|]); cbn; eauto.
  - destruct (c_retry v <=? 0) eqn:Hz.
    + apply Z.leb_le in Hz.
      replace (Nat.min (Z.to_nat (c_retry v) + 1) (length (next :: b) + 1)) with 1%nat
        by (cbn [length]; lia).
      do 4 eexists. (split; [reflexivity|]); (split; [reflexivity|]); cbn; eauto.
    + apply Z.leb_gt in Hz.
      pose proof (session_after_Execute i (Stmt data) st s Hs) as Hs'.
      destruct (IH (mkCaptured (reply_err (respond s (calls s) (Stmt data)))
                      (reply_resp (respond s (calls s) (Stmt data))) (c_retry v - 1))
                  (slept next (after_Execute i (Stmt data) s st)) _ Hs')
        as (e & v' & st' & r & Hrun & Htr & Hrest).
      { cbn. intros n Hn. apply Hall. lia. }
      exists e, v', st', r. split; [exact Hrun|]. split; [|exact Hrest].
      rewrite Htr. cbn [c_retry slept after_Execute trace length].
      replace (Nat.min (Z.to_nat (c_retry v) + 1) (S (length b) + 1))
        with (S (Nat.min (Z.to_nat (c_retry v - 1) + 1) (length b + 1))) by lia.
      cbn. now rewrite <- app_assoc.
Qed.

(** C4. Take a request all of whose attempts fail in the bounded class:
    a transport error without a response, or a response with neither a
    permanent code nor the back-pressure text.  Each such attempt takes one
    off the counter while it is positive and is turned into a permanent
    error once the counter is at zero (or below).  The counter starts at
    the budget [p.retry], so the request is executed
    [min (max k 0 + 1) (d + 1)] times, [k] being the budget and [d] the
    number of delays the back-off grants before its elapsed-time cap: at
    most [k + 1] times for a budget [k >= 0].  It ends as a failure, one
    [ErrData] on the request's error channel. *)
Theorem bounded_retry_executes_at_most_budget_plus_one
    (i : Z) (data : ClientRequest) (st : State) (s : Session) :
  at_index (Sessions (cp st)) i = Some (Some s) ->
  (forall n, (calls s <= n)%nat -> bounded_failure (respond s n (Stmt data)) = true) ->
  (forall v st0 s0,
      at_index (Sessions (cp st0)) i = Some (Some s0) ->
      bounded_failure (respond s0 (calls s0) (Stmt data)) = true ->
      exists oe v',
        operation i data v st0 = Some ((Some oe, v'), after_Execute i (Stmt data) s0 st0) /\
        (0 < c_retry v -> c_retry v' = c_retry v - 1 /\ exists e, oe = Retryable e) /\
        (c_retry v <= 0 -> c_retry v' = c_retry v /\ exists e, oe = Permanent e)) /\
  exists (n : nat) (e : error) (st' : State),
    serve i data st = Some (tt, st') /\
    n = Nat.min (Z.to_nat (retry (cp st)) + 1) (length (timer st (clock st)) + 1) /\
    (0 <= retry (cp st) -> Z.of_nat n <= retry (cp st) + 1) /\
    trace st' = trace st ++ replicate n (EvExecute i (Stmt data)) ++
                  [EvSendErr (ErrCh data) (mkErrData (Some e) (Request_Data data))].
Proof.
  intros Hs Hall. split.
  - intros v st0 s0 Hs0 Hb.
    rewrite (operation_bounded i data v st0 s0 Hs0 Hb).
    do 2 eexists. split; [reflexivity|]. cbn.
    destruct (c_retry v <=? 0) eqn:Hz; [apply Z.leb_le in Hz | apply Z.leb_gt in Hz];
      split; intros; try lia; eauto.
  - destruct (Retry_bounded i data (timer st (clock st))
                (mkCaptured None None (retry (cp st))) st s Hs Hall)
      as (e0 & v' & st1 & r & Hrun & Htr & Herr & Hresp & Hns).
    destruct (settle_failure i data (clock st) v' st1 r Herr Hresp Hns) as (e & Hset).
    exists (Nat.min (Z.to_nat (retry (cp st)) + 1) (length (timer st (clock st)) + 1)), e.
    eexists. split; [|split; [reflexivity|split; [lia|]]].
    + unfold serve, NewExponentialBackOff. unfold bind at 1 2, get, ret. cbn.
      rewrite (bind_Some _ _ _ _ _ Hrun). cbn. exact Hset.
    + cbn. rewrite Htr. cbn. now rewrite <- app_assoc.
Qed.

Lemma bounded_retry_executes_at_most_budget_plus_one_witness :
  exists (e : error) (st' : State),
    serve 0 (demo_request "INSERT 1" 3)
      (demo_state (demo_pool (always storage_error) [] false None) [1000; 1500; 2250; 3375])
    = Some (tt, st') /\
    trace st' = replicate 3 (EvExecute 0 "INSERT 1") ++
                  [EvSendErr 3 (mkErrData (Some e) (Request_Data (demo_request "INSERT 1" 3)))].
Proof.
  destruct (bounded_retry_executes_at_most_budget_plus_one 0 (demo_request "INSERT 1" 3)
              (demo_state (demo_pool (always storage_error) [] false None)
                 [1000; 1500; 2250; 3375])
              (always storage_error) eq_refl)
    as (_ & n & e & st' & Hrun & Hn & _ & Htr).
  - intros n _. reflexivity.
  - exists e, st'. split; [exact Hrun|]. rewrite Htr, Hn. reflexivity.
Defined.

(** ** The worker *)

(** C3, as the code has it. A worker that takes the end-of-input sentinel
    off its queue sends one [ErrData] without error on the sentinel's error
    channel, executes no statement for it, and goes on with whatever is
    queued behind it.  The loop is left only on an empty queue: the worker
    returns when the queue was closed and waits otherwise. *)
Theorem sentinel_is_acknowledged_and_loop_goes_on
    (i : Z) (c : Chan) (data : ClientRequest) (q : list ClientRequest) (st : State) :
  Stmt data = STAT_FILEDONE ->
  worker_loop i c (data :: q) st
  = worker_loop i c q
      (logged [EvSendErr (ErrCh data) (mkErrData None [])] (dequeued i c q st)) /\
  worker_loop i c [] st = Some (if closed c then Returned else Waiting, st).
Proof.
  intros Hstmt. split; [|reflexivity].
  cbn [worker_loop]. rewrite Hstmt, String.eqb_refl. reflexivity.
Qed.

Lemma sentinel_is_acknowledged_and_loop_goes_on_witness :
  worker_loop 0 (mkChan [] 16 true) [demo_request STAT_FILEDONE 4]
    (demo_state (demo_pool (always ok_reply) [] true None) [])
  = Some (Returned,
          logged [EvSendErr 4 (mkErrData None [])]
            (dequeued 0 (mkChan [] 16 true) []
               (demo_state (demo_pool (always ok_reply) [] true None) []))).
Proof.
  rewrite (proj1 (sentinel_is_acknowledged_and_loop_goes_on 0 (mkChan [] 16 true)
                    (demo_request STAT_FILEDONE 4) []
                    (demo_state (demo_pool (always ok_reply) [] true None) [])
                    eq_refl)).
  reflexivity.
Defined.

(** C3 as claimed fails: with the sentinel and then an insert in the queue,
    the worker acknowledges the sentinel and then takes the insert off the
    queue, executes it and reports its statistics; it ends waiting on the
    open, empty queue. *)
Lemma worker_goes_on_after_sentinel :
  match
    startWorker 0
      (demo_state
         (demo_pool (always ok_reply)
            [demo_request STAT_FILEDONE 4; demo_request "INSERT 2" 5] false None) [])
  with
  | Some (Waiting, st') =>
      trace st' =
        [EvExecute 0 "USE `basic`;";
         EvSendErr 4 (mkErrData None []);
         EvExecute 0 "INSERT 2";
         EvSendStats 7 (NewSuccessStats 120 5 2 30)] /\
      requestChs (cp st') = [Some (mkChan [] 16 false)]
  | _ => False
  end.
Proof. vm_compute. split; reflexivity. Qed.

Lemma USE_not_empty sp : (String.length (USE sp) =? 0)%nat = false.
Proof. reflexivity. Qed.

Lemma exec_run i stmt st s :
  at_index (Sessions (cp st)) i = Some (Some s) ->
  (String.length stmt =? 0)%nat = false ->
  let r := respond s (calls s) stmt in
  exists err,
    exec i stmt st = Some (err, after_Execute i stmt s st) /\
    (err = None <-> succeeded r = true).
Proof.
  intros Hs Hlen r. unfold exec. rewrite Hlen.
  rewrite (bind_Some _ _ _ _ _ (Execute_run _ _ _ _ Hs)). fold r.
  destruct r as [res | err | res err]; cbn.
  - unfold succeeded; cbn. destruct (IsSucceed res); cbn; eexists;
      (split; [reflexivity|]); split; auto; discriminate.
  - eexists. split; [reflexivity|]. split; discriminate.
  - eexists. split; [reflexivity|]. split; discriminate.
Qed.



(** ** Close *)

Lemma at_index_nat {A} (l : list A) (k : nat) : at_index l (Z.of_nat k) = l !! k.
Proof.
  unfold at_index. destruct (Z.of_nat k <? 0) eqn:H; [apply Z.ltb_lt in H; lia|].
  now rewrite Nat2Z.id.
Qed.

Lemma Close_loop_step n k st s c :
  Sessions (cp st) !! k = Some s ->
  requestChs (cp st) !! k = Some c ->
  (forall ch, c = Some ch -> closed ch = false) ->
  Close_loop (S n) (Z.of_nat k) st = Close_loop n (Z.of_nat (S k)) (slot_closed k s c st).
Proof.
  intros Hs Hc Hopen. cbn [Close_loop].
  replace (Z.of_nat k + 1) with (Z.of_nat (S k)) by lia.
  unfold bind at 1, get. unfold bind at 1. rewrite at_index_nat, Hs.
  assert (Hrel :
    match s with Some _ => Release (Z.of_nat k) | None => ret tt end st
    = Some (tt, mkState (with_Sessions (<[k := let_go <$> s]> (Sessions (cp st))) (cp st))
                  (clock st) (timer st)
                  (trace st ++ match s with Some _ => [EvRelease (Z.of_nat k)] | None => [] end))).
  { destruct s as [s|].
    - unfold Release, session_at, bind, get. cbn. rewrite at_index_nat, Hs. cbn.
      now rewrite Nat2Z.id.
    - cbn. unfold ret. rewrite app_nil_r, (list_insert_id _ _ _ Hs).
      now destruct st as [[] ? ? ?]. }
  rewrite Hrel. unfold bind at 1, chan_at. unfold bind at 1, get. cbn.
  rewrite at_index_nat, Hc. cbn. unfold bind at 1.
  destruct c as [ch|].
  - unfold close. rewrite (Hopen ch eq_refl). unfold bind, modify, emit. cbn.
    rewrite Nat2Z.id. unfold slot_closed. cbn. now rewrite <- app_assoc.
  - cbn. unfold slot_closed. cbn. rewrite (list_insert_id _ _ _ Hc).
    now rewrite app_nil_r.
Qed.

Lemma Close_loop_run :
  forall n k st,
    length (Sessions (cp st)) = (k + n)%nat ->
    length (requestChs (cp st)) = (k + n)%nat ->
    (forall j c, (k <= j)%nat -> requestChs (cp st) !! j = Some (Some c) -> closed c = false) ->
    exists st',
      Close_loop n (Z.of_nat k) st = Some (tt, st') /\
      trace st' = trace st ++
        slots_events (Z.of_nat k) (drop k (Sessions (cp st))) (drop k (requestChs (cp st))) /\
      Sessions (cp st') = take k (Sessions (cp st)) ++ (fmap (M:=option) let_go <$> drop k (Sessions (cp st))) /\
      requestChs (cp st') =
        take k (requestChs (cp st)) ++ (fmap (M:=option) shut <$> drop k (requestChs (cp st))) /\
      pool (cp st') = pool (cp st).
Proof.
  induction n as [|n IH]; intros k st Hls Hlc Hopen.
  - exists st. rewrite !drop_ge, !take_ge by lia. cbn. now rewrite !app_nil_r.
  - destruct (lookup_lt_is_Some_2 (Sessions (cp st)) k) as [s Hs]; [lia|].
    destruct (lookup_lt_is_Some_2 (requestChs (cp st)) k) as [c Hc]; [lia|].
    rewrite (Close_loop_step n k st s c Hs Hc)
      by (intros ch ->; eapply Hopen; [apply Nat.le_refl | exact Hc]).
    destruct (IH (S k) (slot_closed k s c st)) as (st' & Hrun & Htr & Hss & Hcs & Hpool).
    { cbn. rewrite length_insert. lia. }
    { cbn. rewrite length_insert. lia. }
    { cbn. intros j ch Hj Hlook. rewrite list_lookup_insert_ne in Hlook by lia.
      eapply Hopen; [|exact Hlook]. lia. }
    exists st'. split; [exact Hrun|]. cbn in Htr, Hss, Hcs, Hpool.
    rewrite !drop_insert_lt in Htr by lia.
    rewrite drop_insert_lt in Hss by lia.
    rewrite drop_insert_lt in Hcs by lia.
    rewrite (take_S_r _ _ (let_go <$> s)) in Hss
      by (apply list_lookup_insert_eq; eapply lookup_lt_Some, Hs).
    rewrite (take_S_r _ _ (shut <$> c)) in Hcs
      by (apply list_lookup_insert_eq; eapply lookup_lt_Some, Hc).
    rewrite take_insert_ge in Hss by lia.
    rewrite take_insert_ge in Hcs by lia.
    rewrite (drop_S _ _ _ Hs), (drop_S _ _ _ Hc).
    split; [|split; [|split]].
    + rewrite Htr. cbn [slots_events].
      replace (Z.of_nat k + 1) with (Z.of_nat (S k)) by lia.
      now rewrite <- !app_assoc.
    + rewrite Hss. cbn. now rewrite <- app_assoc.
    + rewrite Hcs. cbn. now rewrite <- app_assoc.
    + exact Hpool.
Qed.

Lemma first_active_found ss :
  forall k : nat,
    first_active ss (Z.of_nat k) <> -1 ->
    exists (j : nat) (s : Session),
      first_active ss (Z.of_nat k) = Z.of_nat (k + j) /\ ss !! j = Some (Some s).
Proof.
  induction ss as [|[s|] ss IH]; intros k H; cbn in *.
  - congruence.
  - exists 0%nat, s. split; [f_equal; lia | reflexivity].
  - replace (Z.of_nat k + 1) with (Z.of_nat (S k)) in * by lia.
    destruct (IH (S k) H) as (j & s & Hj & Hs).
    exists (S j), s. split; [rewrite Hj; f_equal; lia | exact Hs].
Qed.

Lemma slots_events_insert_Some ss :
  forall cs k j s s',
    ss !! j = Some (Some s) ->
    slots_events k (<[j := Some s']> ss) cs = slots_events k ss cs.
Proof.
  induction ss as [|x ss IH]; intros cs k j s s' H; [discriminate|].
  destruct j as [|j]; cbn in *.
  - injection H as ->. reflexivity.
  - destruct cs as [|c cs]; [reflexivity|]. do 2 f_equal. eapply IH, H.
Qed.

Lemma pre_stop_done_refl st : pre_stop_done st st [].
Proof. unfold pre_stop_done. rewrite app_nil_r. repeat split; auto. Qed.

Lemma pre_stop_done_Execute st j stmt s evs :
  Sessions (cp st) !! j = Some (Some s) ->
  Forall is_pre_stop_event evs ->
  pre_stop_done st (logged evs (after_Execute (Z.of_nat j) stmt s st))
    (EvExecute (Z.of_nat j) stmt :: evs).
Proof.
  intros Hs Hevs. unfold pre_stop_done. cbn. rewrite Nat2Z.id, length_insert.
  split; [now rewrite <- app_assoc|].
  split; [constructor; [exact I | exact Hevs]|].
  repeat split. intros k cs. eapply slots_events_insert_Some, Hs.
Qed.

Lemma Close_rest st :
  length (Sessions (cp st)) = Z.to_nat (concurrency (cp st)) ->
  length (requestChs (cp st)) = Z.to_nat (concurrency (cp st)) ->
  (forall j c, requestChs (cp st) !! j = Some (Some c) -> closed c = false) ->
  exists st',
    bind (Close_loop (Z.to_nat (concurrency (cp st))) 0) (fun _ => pool_Close) st
    = Some (tt, st') /\
    trace st' = trace st ++
      slots_events 0 (Sessions (cp st)) (requestChs (cp st)) ++ [EvClosePool] /\
    (forall j s, Sessions (cp st') !! j = Some (Some s) -> released s = true) /\
    (forall j c, requestChs (cp st') !! j = Some (Some c) -> closed c = true) /\
    poolClosed (pool (cp st')) = true.
Proof.
  intros Hls Hlc Hopen.
  destruct (Close_loop_run (Z.to_nat (concurrency (cp st))) 0 st)
    as (st1 & Hrun & Htr & Hss & Hcs & _); [lia | lia | eauto |].
  rewrite drop_0 in Htr, Hss. rewrite drop_0 in Htr, Hcs.
  rewrite firstn_O, app_nil_l in Hss. rewrite firstn_O, app_nil_l in Hcs. cbn in Hrun.
  eexists. split; [rewrite (bind_Some _ _ _ _ _ Hrun); reflexivity|]. cbn.
  split; [rewrite Htr; now rewrite <- app_assoc|].
  split; [|split; [|reflexivity]].
  - intros j s. rewrite Hss, list_lookup_fmap.
    destruct (Sessions (cp st) !! j) as [[x|]|]; intros H; now simplify_eq/=.
  - intros j c. rewrite Hcs, list_lookup_fmap.
    destruct (requestChs (cp st) !! j) as [[x|]|]; intros H; now simplify_eq/=.
Qed.

Lemma exec_empty i stmt st :
  (String.length stmt =? 0)%nat = true -> exec i stmt st = Some (None, st).
Proof. intros H. unfold exec. now rewrite H. Qed.

(** C8, as the code has it. On a pool whose session and queue slices have
    [concurrency] slots and whose queues are still open, [Close] returns,
    whatever the session answers to the pre-stop batch: a failure of the
    batch only adds a log line.  After the batch it goes through the slots
    in index order and, slot by slot, releases the session if there is one
    and then closes the queue if there is one; the connection pool is
    closed last.  Afterwards every session is released, every queue closed
    and the connection pool closed. *)
Theorem Close_completes_slot_by_slot (st : State) :
  length (Sessions (cp st)) = Z.to_nat (concurrency (cp st)) ->
  length (requestChs (cp st)) = Z.to_nat (concurrency (cp st)) ->
  (forall j c, requestChs (cp st) !! j = Some (Some c) -> closed c = false) ->
  exists (st' : State) (pre : list Event),
    Close st = Some (tt, st') /\
    Forall is_pre_stop_event pre /\
    trace st' = trace st ++ pre ++
      slots_events 0 (Sessions (cp st)) (requestChs (cp st)) ++ [EvClosePool] /\
    (forall j s, Sessions (cp st') !! j = Some (Some s) -> released s = true) /\
    (forall j c, requestChs (cp st') !! j = Some (Some c) -> closed c = true) /\
    poolClosed (pool (cp st')) = true.
Proof.
  intros Hls Hlc Hopen.
  unfold Close. unfold bind at 1. unfold get. cbv beta iota zeta.
  match goal with
  | |- context [bind ?m (fun _ => bind (Close_loop _ _) _)] =>
      assert (exists st_a pre, m st = Some (tt, st_a) /\ pre_stop_done st st_a pre) as Hpre
  end.
  { destruct (preStop (cp st)) as [[[commands|]]|];
      try (exists st, []; split; [reflexivity | apply pre_stop_done_refl]).
    destruct (getActiveConnIdx (cp st) =? -1) eqn:Hidx; cbn [negb];
      [exists st, []; split; [reflexivity | apply pre_stop_done_refl]|].
    apply Z.eqb_neq in Hidx. unfold getActiveConnIdx in *.
    destruct (first_active_found (Sessions (cp st)) 0 Hidx) as (j & s & Hj & Hs).
    change (Z.of_nat 0) with 0 in Hj. change (0 + j)%nat with j in Hj.
    cbn [PreStop_Commands]. rewrite Hj.
    destruct (String.length commands =? 0)%nat eqn:Hlen.
    - rewrite (bind_Some _ _ _ _ _ (exec_empty _ _ st Hlen)).
      exists st, []. split; [reflexivity | apply pre_stop_done_refl].
    - assert (Hat : at_index (Sessions (cp st)) (Z.of_nat j) = Some (Some s))
        by now rewrite at_index_nat.
      destruct (exec_run _ commands st s Hat Hlen) as (err & Hexec & _).
      rewrite (bind_Some _ _ _ _ _ Hexec).
      destruct err as [e|].
      + exists (logged [EvLogError e] (after_Execute (Z.of_nat j) commands s st)).
        eexists. split; [reflexivity|].
        apply pre_stop_done_Execute; [exact Hs|]. repeat constructor.
      + exists (logged [] (after_Execute (Z.of_nat j) commands s st)).
        eexists. split; [unfold ret, logged; cbn; now rewrite app_nil_r|].
        apply pre_stop_done_Execute; [exact Hs|]. constructor. }
  destruct Hpre as (st_a & pre & Hrun & Htr & Hev & Hq & Hc & Hl & Hshape).
  rewrite (bind_Some _ _ _ _ _ Hrun), <- Hc.
  destruct (Close_rest st_a) as (st' & Hrest & Htr' & Hrel & Hcl & Hpool).
  { now rewrite Hl, Hc. }
  { now rewrite Hq, Hc. }
  { rewrite Hq. exact Hopen. }
  exists st', pre. split; [exact Hrest|]. split; [exact Hev|].
  split; [|auto].
  rewrite Htr', Htr, Hshape, Hq. now rewrite <- app_assoc.
Qed.

Lemma Close_completes_slot_by_slot_witness :
  exists (st' : State) (pre : list Event),
    Close (demo_state
             (demo_pool (always storage_error) [] false (Some (mkPreStop (Some "DROP SPACE tmp;"))))
             [])
    = Some (tt, st') /\
    trace st' = pre ++ [EvRelease 0; EvCloseCh 0; EvClosePool] /\
    poolClosed (pool (cp st')) = true.
Proof.
  destruct (Close_completes_slot_by_slot
              (demo_state
                 (demo_pool (always storage_error) [] false
                    (Some (mkPreStop (Some "DROP SPACE tmp;")))) []))
    as (st' & pre & Hrun & _ & Htr & _ & _ & Hpool).
  - reflexivity.
  - reflexivity.
  - intros [|[|j]] c H; cbn in H; [injection H as <-; reflexivity | discriminate | discriminate].
  - exists st', pre. split; [exact Hrun|]. split; [exact Htr | exact Hpool].
Defined.

(** C8 as claimed fails in its order: with two slots, the queue of slot 0
    is closed before the session of slot 1 is released. *)
Lemma Close_interleaves_release_and_close :
  match Close (demo_state (demo_pool2 (always ok_reply)) []) with
  | Some (_, st') =>
      trace st' = [EvRelease 0; EvCloseCh 0; EvRelease 1; EvCloseCh 1; EvClosePool]
  | None => False
  end.
Proof. vm_compute. reflexivity. Qed.

(** ** NewClientPool *)

Lemma at_index_Some {A} (l : list A) (i : Z) (x : A) :
  at_index l i = Some x -> 0 <= i /\ l !! Z.to_nat i = Some x.
Proof.
  unfold at_index. destruct (i <? 0) eqn:H; [discriminate|].
  apply Z.ltb_ge in H. auto.
Qed.

Lemma fill_slot_inv settings L c b b' :
  building_inv L c b ->
  fill_slot settings b = Go_on b' ->
  building_inv L c b' /\ b_j b' = b_j b + 1.
Proof.
  intros (Hj & Hle & Hls & Hlc & Hc & Hfill). unfold fill_slot.
  destruct (GetSession _ _ _) as [got pool'].
  destruct (at_index (Sessions (b_pool b)) (b_j b)) as [x|] eqn:Hx; [|discriminate].
  destruct got as [s|e]; [|discriminate].
  destruct (ChannelBufferSize settings <? 0); [discriminate|].
  destruct (at_index (requestChs (b_pool b)) (b_j b)) as [y|] eqn:Hy; [|discriminate].
  intros [= <-]. cbn.
  apply at_index_Some in Hx as [_ Hx]. apply at_index_Some in Hy as [_ Hy].
  pose proof (lookup_lt_Some _ _ _ Hx) as Hlt.
  pose proof (lookup_lt_Some _ _ _ Hy) as Hlt'.
  split; [|reflexivity].
  unfold building_inv, filled. cbn. rewrite !length_insert.
  repeat split; try lia; try assumption.
  - destruct (decide (k = Z.to_nat (b_j b))) as [->|Hne].
    + rewrite list_lookup_insert_eq by lia. eauto.
    + rewrite list_lookup_insert_ne by lia. apply Hfill. lia.
  - destruct (decide (k = Z.to_nat (b_j b))) as [->|Hne].
    + rewrite list_lookup_insert_eq by lia. eauto.
    + rewrite list_lookup_insert_ne by lia. apply Hfill. lia.
Qed.

Lemma fill_inner_inv settings L c :
  forall n b b',
    building_inv L c b ->
    fill_inner settings n b = Go_on b' ->
    building_inv L c b' /\ b_j b' = b_j b + Z.of_nat n.
Proof.
  induction n as [|n IH]; intros b b' Hinv; cbn [fill_inner].
  - intros [= <-]. split; [exact Hinv | lia].
  - destruct (fill_slot settings b) as [b1| |] eqn:Hslot; try discriminate.
    intros Hrest.
    destruct (fill_slot_inv settings L c b b1 Hinv Hslot) as [Hinv1 Hj1].
    destruct (IH b1 b' Hinv1 Hrest) as [Hinv' Hj']. split; [exact Hinv' | lia].
Qed.

Lemma fill_outer_inv settings L c :
  forall m b b',
    building_inv L c b ->
    fill_outer settings m b = Go_on b' ->
    building_inv L c b' /\
    b_j b' = b_j b + Z.of_nat m * Z.of_nat (Z.to_nat (Concurrency settings)).
Proof.
  induction m as [|m IH]; intros b b' Hinv; cbn [fill_outer].
  - intros [= <-]. split; [exact Hinv | lia].
  - destruct (fill_inner settings _ b) as [b1| |] eqn:Hin; try discriminate.
    intros Hrest.
    destruct (fill_inner_inv settings L c _ b b1 Hinv Hin) as [Hinv1 Hj1].
    destruct (IH b1 b' Hinv1 Hrest) as [Hinv' Hj']. split; [exact Hinv' | lia].
Qed.

Lemma wrap64_exact P W : 0 <= P -> P <= W -> W = wrap64 P -> W = P.
Proof.
  unfold wrap64. intros H0 Hle ->.
  assert (H63 : 2 ^ 63 = 9223372036854775808) by reflexivity.
  assert (H64 : 2 ^ 64 = 18446744073709551616) by reflexivity.
  rewrite H63, H64 in *.
  pose proof (Z.mod_pos_bound (P + 9223372036854775808) 18446744073709551616 ltac:(lia)) as Hb.
  rewrite Z.mod_small; lia.
Qed.

Lemma make_slice_Some {A} n (l : list (option A)) :
  make_slice n = Some l -> 0 <= n /\ length l = Z.to_nat n /\ l = replicate (Z.to_nat n) None.
Proof.
  unfold make_slice. destruct (n <? 0) eqn:H; [discriminate|].
  apply Z.ltb_ge in H. intros [= <-]. now rewrite length_replicate.
Qed.

(** C6. When [NewClientPool] returns a pool for a per-endpoint concurrency
    that is not negative, the pool's concurrency is that number times the
    number of entries of the comma-separated address list, the session
    slice and the queue slice both have that many slots, and every slot
    holds a session and a queue of its own.  For the address list
    "h1:9669,h2:9669" and per-endpoint concurrency 1 this is a concurrency
    of 2, two sessions and two queues. *)
Theorem NewClientPool_fills_every_slot
    (cluster : Cluster) (settings : NebulaClientSettings) (statsCh_ : nat) (p : ClientPool) :
  0 <= Concurrency settings ->
  NewClientPool cluster settings statsCh_ = Some (Some p, None) ->
  let endpoints := Split (Address (Connection settings)) ","%char in
  concurrency p = Concurrency settings * Z.of_nat (length endpoints) /\
  Z.of_nat (length (Sessions p)) = concurrency p /\
  Z.of_nat (length (requestChs p)) = concurrency p /\
  (forall k, (k < length (Sessions p))%nat -> exists s, Sessions p !! k = Some (Some s)) /\
  (forall k, (k < length (requestChs p))%nat -> exists c, requestChs p !! k = Some (Some c)) /\
  (Address (Connection settings) = "h1:9669,h2:9669" -> Concurrency settings = 1 ->
   concurrency p = 2 /\ length (Sessions p) = 2%nat /\ length (requestChs p) = 2%nat).
Proof.
  intros Hconc Hnew endpoints. unfold NewClientPool in Hnew. fold endpoints in Hnew.
  destruct (parse_hosts endpoints []) as [hosts|e]; [|discriminate].
  destruct (cluster hosts _) as [connPool|e]; [|discriminate].
  set (W := wrap64 (Concurrency settings * Z.of_nat (length endpoints))) in *.
  destruct (make_slice W) as [sessions|] eqn:Hms; [|discriminate].
  destruct (@make_slice Chan W) as [chans|] eqn:Hmc; [|discriminate].
  apply make_slice_Some in Hms as (HW & Hls & _).
  apply make_slice_Some in Hmc as (_ & Hlc & _).
  destruct (fill_outer _ _ _) as [b| |] eqn:Hfill; try discriminate.
  injection Hnew as <-.
  match type of Hfill with
  | fill_outer _ _ ?b0 = _ =>
      assert (Hinv0 : building_inv (Z.to_nat W) W b0)
        by (unfold building_inv, filled; cbn; repeat split; try lia; assumption)
  end.
  destruct (fill_outer_inv settings (Z.to_nat W) W _ _ b Hinv0 Hfill)
    as [(Hj & Hle & Hls' & Hlc' & Hc & Hfilled) Hjb].
  cbn in Hjb. rewrite Z2Nat.id in Hjb by lia.
  assert (HWP : W = Concurrency settings * Z.of_nat (length endpoints)).
  { apply wrap64_exact; [lia | | reflexivity]. rewrite Hjb in Hle. nia. }
  assert (Hfull : Z.to_nat (b_j b) = Z.to_nat W) by (rewrite Hjb, HWP; f_equal; lia).
  assert (Hgen :
    concurrency (b_pool b) = Concurrency settings * Z.of_nat (length endpoints) /\
    Z.of_nat (length (Sessions (b_pool b))) = concurrency (b_pool b) /\
    Z.of_nat (length (requestChs (b_pool b))) = concurrency (b_pool b)).
  { rewrite Hc, Hls', Hlc', Z2Nat.id by lia. auto. }
  destruct Hgen as (G1 & G2 & G3).
  split; [exact G1|]. split; [exact G2|]. split; [exact G3|].
  split; [|split].
  - intros k Hk. apply Hfilled. lia.
  - intros k Hk. apply Hfilled. lia.
  - intros Haddr Hone. subst endpoints. rewrite Haddr, Hone in *.
    cbn in G1. split; [exact G1|]. rewrite G1 in G2, G3. lia.
Qed.

Lemma NewClientPool_fills_every_slot_witness :
  exists p,
    NewClientPool demo_cluster (demo_settings "h1:9669,h2:9669" 1) 0 = Some (Some p, None) /\
    concurrency p = 2 /\ length (Sessions p) = 2%nat /\ length (requestChs p) = 2%nat.
Proof.
  eexists. split; [reflexivity|].
  refine (proj2 (proj2 (proj2 (proj2 (proj2
            (NewClientPool_fills_every_slot demo_cluster
               (demo_settings "h1:9669,h2:9669" 1) 0 _ _ eq_refl)))))
            eq_refl eq_refl).
  cbn. lia.
Defined.


Lemma wrap64_small z : minInt <= z <= maxInt -> wrap64 z = z.
Proof.
  unfold wrap64, minInt, maxInt.
  assert (H63 : 2 ^ 63 = 9223372036854775808) by reflexivity.
  assert (H64 : 2 ^ 64 = 18446744073709551616) by reflexivity.
  rewrite H63, H64. intros H. rewrite Z.mod_small; lia.
Qed.









(** ** A worker on three requests

    Retry budget 2; the second request is answered with a syntax error on
    its first attempt.  The outcomes come in the order of the queue:
    statistics for the first, one error for the second after a single
    attempt, statistics for the third. *)
Example worker_three_requests :
  match
    startWorker 0
      (demo_state
         (demo_pool
            (scripted (fun n => match n with 2%nat => syntax_error_near_raft | _ => ok_reply end))
            [demo_request "INSERT 1" 1; demo_request "INSERT 2" 2; demo_request "INSERT 3" 3]
            true None)
         [1000; 1500])
  with
  | Some (Returned, st') =>
      exists e,
        trace st' =
          [EvExecute 0 "USE `basic`;";
           EvExecute 0 "INSERT 1"; EvSendStats 7 (NewSuccessStats 120 5 2 30);
           EvExecute 0 "INSERT 2";
           EvSendErr 2 (mkErrData (Some e) (Request_Data (demo_request "INSERT 2" 2)));
           EvExecute 0 "INSERT 3"; EvSendStats 7 (NewSuccessStats 120 5 2 30)]
  | _ => False
  end.
Proof. vm_compute. eexists. reflexivity. Qed.

(** * Further properties of the client pool *)

(** ** getActiveConnIdx *)

Lemma first_active_spec ss :
  forall k : nat,
    (first_active ss (Z.of_nat k) = -1 /\ Forall (fun o => o = None) ss) \/
    (exists (j : nat) (s : Session),
        first_active ss (Z.of_nat k) = Z.of_nat (k + j) /\
        ss !! j = Some (Some s) /\
        forall j', (j' < j)%nat -> ss !! j' = Some None).
Proof.
  induction ss as [|[s|] ss IH]; intros k; cbn [first_active].
  - left. split; [reflexivity | constructor].
  - right. exists 0%nat, s. split; [f_equal; lia|]. split; [reflexivity|]. intros j' H; lia.
  - replace (Z.of_nat k + 1) with (Z.of_nat (S k)) by lia.
    destruct (IH (S k)) as [[H1 H2] | (j & s & H1 & H2 & H3)].
    + left. split; [exact H1 | constructor; [reflexivity | exact H2]].
    + right. exists (S j), s. split; [rewrite H1; f_equal; lia|]. split; [exact H2|].
      intros [|j'] Hj'; [reflexivity | apply H3; lia].
Qed.

(** X1. [getActiveConnIdx] returns -1 exactly when every session slot is
    nil; otherwise it returns the index of the first slot that holds a
    session: that index is within the slice and every slot before it is
    nil. *)
Theorem getActiveConnIdx_first_session (p : ClientPool) :
  (getActiveConnIdx p = -1 /\ Forall (fun o => o = None) (Sessions p)) \/
  (exists (k : nat) (s : Session),
      getActiveConnIdx p = Z.of_nat k /\
      (k < length (Sessions p))%nat /\
      Sessions p !! k = Some (Some s) /\
      forall j, (j < k)%nat -> Sessions p !! j = Some None).
Proof.
  unfold getActiveConnIdx.
  destruct (first_active_spec (Sessions p) 0) as [H | (j & s & H1 & H2 & H3)].
  - left. exact H.
  - right. exists j, s. split; [exact H1|]. split; [eapply lookup_lt_Some, H2|]. auto.
Qed.

(** ** exec on a statement that is not empty *)

Lemma exec_panics i stmt st :
  (String.length stmt =? 0)%nat = false ->
  (forall s, at_index (Sessions (cp st)) i <> Some (Some s)) ->
  exec i stmt st = None.
Proof.
  intros Hlen Hs. unfold exec. rewrite Hlen.
  unfold bind, Execute, bind, session_at, bind, get.
  destruct (at_index (Sessions (cp st)) i) as [[s|]|] eqn:H; [|reflexivity|reflexivity].
  destruct (Hs s). reflexivity.
Qed.

(** X2. For a statement that is not empty, [exec i stmt] makes exactly one
    [Execute] call on the session of slot [i] and returns nil exactly when
    that call returned no transport error and a response that is a
    success; nothing else of the state changes.  When slot [i] is out of
    range or holds no session, the call panics. *)
Theorem exec_executes_once_or_panics (i : Z) (stmt : string) (st : State) :
  stmt <> "" ->
  match at_index (Sessions (cp st)) i with
  | Some (Some s) =>
      exists err,
        exec i stmt st = Some (err, after_Execute i stmt s st) /\
        (err = None <-> succeeded (respond s (calls s) stmt) = true)
  | _ => exec i stmt st = None
  end.
Proof.
  intros Hne.
  assert (Hlen : (String.length stmt =? 0)%nat = false) by (destruct stmt; [congruence | reflexivity]).
  destruct (at_index (Sessions (cp st)) i) as [[s|]|] eqn:Hs.
  - apply exec_run; assumption.
  - apply exec_panics; [exact Hlen | congruence].
  - apply exec_panics; [exact Hlen | congruence].
Qed.

Lemma exec_executes_once_or_panics_witness :
  (exists err,
     exec 0 "SHOW HOSTS;" (demo_state (demo_pool (always ok_reply) [] false None) [])
     = Some (err, after_Execute 0 "SHOW HOSTS;" (always ok_reply)
                    (demo_state (demo_pool (always ok_reply) [] false None) []))) /\
  exec 1 "SHOW HOSTS;" (demo_state (demo_pool (always ok_reply) [] false None) []) = None.
Proof.
  split.
  - destruct (exec_executes_once_or_panics 0 "SHOW HOSTS;"
                (demo_state (demo_pool (always ok_reply) [] false None) []))
      as (err & H & _); [discriminate|]. exists err. exact H.
  - apply (exec_executes_once_or_panics 1 "SHOW HOSTS;"
             (demo_state (demo_pool (always ok_reply) [] false None) [])).
    discriminate.
Defined.

(** ** Init *)

Lemma Init_loop_indices :
  forall n k, Init_loop n (Z.of_nat k) = Z.of_nat <$> seq k n.
Proof.
  induction n as [|n IH]; intros k; cbn [Init_loop seq]; [reflexivity|].
  replace (Z.of_nat k + 1) with (Z.of_nat (S k)) by lia.
  now rewrite IH.
Qed.

Lemma exec_after i stmt st s :
  at_index (Sessions (cp st)) i = Some (Some s) ->
  exists err,
    exec i stmt st = Some (err, after_exec i stmt s st) /\
    (err = None <-> exec_ok stmt s = true) /\
    at_index (Sessions (cp (after_exec i stmt s st))) i = Some (Some (session_after_exec stmt s)).
Proof.
  intros Hs. unfold after_exec, session_after_exec, exec_ok.
  destruct (String.length stmt =? 0)%nat eqn:Hlen.
  - exists None. rewrite (exec_empty _ _ _ Hlen). cbn. tauto.
  - destruct (exec_run i stmt st s Hs Hlen) as (err & Hrun & Hiff).
    exists err. cbn [orb]. split; [exact Hrun|]. split; [exact Hiff|].
    apply session_after_Execute, Hs.
Qed.

Lemma Init_cases (ParseDuration : string -> Z) (st : State) (i : Z) (s : Session) :
  getActiveConnIdx (cp st) = i ->
  at_index (Sessions (cp st)) i = Some (Some s) ->
  post_start_complete (cp st) ->
  let commands := post_commands (cp st) in
  let st1 := after_exec i commands s st in
  let s1 := session_after_exec commands s in
  let st2 := settled ParseDuration (cp st) st1 in
  let use := USE (space (cp st)) in
  if exec_ok commands s then
    if exec_ok use s1 then
      Init ParseDuration st
      = Some ((None, worker_indices (concurrency (cp st))), after_Execute i use s1 st2)
    else
      exists e, Init ParseDuration st = Some ((Some e, []), after_Execute i use s1 st2)
  else
    exists e, Init ParseDuration st = Some ((Some e, []), st1).
Proof.
  intros Hi Hs Hcomplete commands st1 s1 st2 use.
  destruct (exec_after i commands st s Hs) as (err & Hrun & Hiff & Hs1).
  fold st1 in Hrun, Hs1. fold s1 in Hs1.
  assert (Hpost :
    match postStart (cp st) with
    | Some ps =>
        match PostStart_Commands ps with
        | Some c => exec i c
        | None => ret None
        end
    | None => ret None
    end st = Some (err, st1)).
  { subst commands. unfold post_commands in *.
    destruct (postStart (cp st)) as [[[c|] ap]|]; cbn in *; exact Hrun. }
  assert (Hpos : (i =? -1) = false).
  { apply at_index_Some in Hs. apply Z.eqb_neq. lia. }
  assert (HInit :
    Init ParseDuration st
    = match err with
      | Some e => Some ((Some e, []), st1)
      | None =>
          bind (match postStart (cp st) with
                | Some ps =>
                    match AfterPeriod ps with
                    | Some text => elapse (Z.max 0 (ParseDuration text))
                    | None => panic
                    end
                | None => ret tt
                end)
            (fun _ => bind (exec i use)
                        (fun err2 =>
                           match err2 with
                           | Some e => ret (Some e, [])
                           | None => ret (None, Init_loop (Z.to_nat (concurrency (cp st))) 0)
                           end)) st1
      end).
  { unfold Init. unfold bind at 1, get. cbv beta iota zeta. rewrite Hi, Hpos.
    rewrite (bind_Some _ _ _ _ _ Hpost). now destruct err. }
  rewrite HInit. clear HInit.
  destruct (exec_ok commands s) eqn:Hok.
  - rewrite (proj2 Hiff eq_refl).
    assert (Hsettle :
      match postStart (cp st) with
      | Some ps =>
          match AfterPeriod ps with
          | Some text => elapse (Z.max 0 (ParseDuration text))
          | None => panic
          end
      | None => ret tt
      end st1 = Some (tt, st2)).
    { subst st2. unfold settled.
      destruct (postStart (cp st)) as [ps|] eqn:Hps; [|reflexivity].
      destruct (AfterPeriod ps) as [text|] eqn:Hap; [reflexivity|].
      destruct (Hcomplete ps Hps Hap). }
    rewrite (bind_Some _ _ _ _ _ Hsettle).
    assert (Hs2 : at_index (Sessions (cp st2)) i = Some (Some s1)).
    { subst st2. unfold settled.
      destruct (postStart (cp st)) as [ps|]; [|exact Hs1].
      destruct (AfterPeriod ps); exact Hs1. }
    destruct (exec_run i use st2 s1 Hs2 (USE_not_empty _)) as (err2 & Hrun2 & Hiff2).
    rewrite (bind_Some _ _ _ _ _ Hrun2).
    unfold exec_ok.
    rewrite (USE_not_empty (space (cp st)) : (String.length use =? 0)%nat = false). cbn [orb].
    destruct (succeeded (respond s1 (calls s1) use)) eqn:Hsucc.
    + rewrite (proj2 Hiff2 eq_refl). unfold worker_indices.
      now rewrite <- Init_loop_indices.
    + destruct err2 as [e|]; [eexists; reflexivity|].
      discriminate (proj1 Hiff2 eq_refl).
  - destruct err as [e|]; [eexists; reflexivity|].
    discriminate (proj1 Hiff eq_refl).
Qed.

Lemma first_active_none ss :
  forall k, Forall (fun o => o = None) ss -> first_active ss k = -1.
Proof.
  induction ss as [|o ss IH]; intros k H; [reflexivity|].
  inversion H as [|? ? Ho Hrest]; subst. cbn. apply IH, Hrest.
Qed.

(** X3. On a pool without any session (every slot nil, or no slot at all)
    [Init] returns the error "no available session." and does nothing
    else: no statement is executed, the clock does not move, no worker is
    started. *)
Theorem Init_without_session (ParseDuration : string -> Z) (st : State) :
  Forall (fun o => o = None) (Sessions (cp st)) ->
  Init ParseDuration st = Some ((Some (Errorf "no available session." []), []), st).
Proof.
  intros H. unfold Init. unfold bind at 1, get. cbv beta iota zeta.
  unfold getActiveConnIdx. now rewrite (first_active_none _ 0 H).
Qed.

Lemma Init_without_session_witness :
  Init demo_durations
    (demo_state (mkClientPool 2 1 "basic" None None 7
                   (mkConnectionPool (fun _ _ _ => inl (always ok_reply)) 0 false)
                   [None] [None]) [])
  = Some ((Some (Errorf "no available session." []), []),
          demo_state (mkClientPool 2 1 "basic" None None 7
                        (mkConnectionPool (fun _ _ _ => inl (always ok_reply)) 0 false)
                        [None] [None]) []).
Proof.
  apply Init_without_session. repeat constructor.
Defined.

(** X4. On a pool with a session and complete post-start settings [Init]
    returns, and it returns nil exactly when the post-start batch (if there
    is one) and the [USE] pre-check both succeed on the first session.  It
    then has started the workers [0, 1, ..., concurrency - 1], each once and
    in this order; when it returns an error it has started no worker. *)
Theorem Init_starts_every_worker_or_none
    (ParseDuration : string -> Z) (st : State) (i : Z) (s : Session) :
  getActiveConnIdx (cp st) = i ->
  at_index (Sessions (cp st)) i = Some (Some s) ->
  post_start_complete (cp st) ->
  exists (r : option error) (st' : State),
    Init ParseDuration st
    = Some ((r, match r with
                | None => worker_indices (concurrency (cp st))
                | Some _ => []
                end), st') /\
    (r = None <->
     exec_ok (post_commands (cp st)) s
     && exec_ok (USE (space (cp st))) (session_after_exec (post_commands (cp st)) s) = true).
Proof.
  intros Hi Hs Hc.
  pose proof (Init_cases ParseDuration st i s Hi Hs Hc) as H. cbv zeta in H.
  destruct (exec_ok (post_commands (cp st)) s).
  - destruct (exec_ok (USE (space (cp st))) _).
    + exists None. eexists. split; [exact H | tauto].
    + destruct H as [e H]. exists (Some e). eexists. split; [exact H|].
      cbn. split; discriminate.
  - destruct H as [e H]. exists (Some e). eexists. split; [exact H|].
    cbn. split; discriminate.
Qed.

Lemma Init_starts_every_worker_or_none_witness :
  exists st',
    Init demo_durations
      (demo_state (demo_pool_gap (always ok_reply)
                     (Some (mkPostStart (Some "CREATE SPACE basic;") (Some "1s")))) [])
    = Some ((None, [0; 1]), st').
Proof.
  destruct (Init_starts_every_worker_or_none demo_durations
              (demo_state (demo_pool_gap (always ok_reply)
                             (Some (mkPostStart (Some "CREATE SPACE basic;") (Some "1s")))) [])
              1 (always ok_reply) eq_refl eq_refl)
    as (r & st' & Hrun & Hiff).
  - intros ps [= <-]. discriminate.
  - rewrite (proj2 Hiff eq_refl) in Hrun. exists st'. exact Hrun.
Defined.

(** X5. When the post-start batch fails, [Init] returns its error right
    away: the only statement sent is the batch, on the first session; the
    settle period is not slept, the [USE] pre-check is not made, and no
    worker is started. *)
Theorem Init_stops_at_failed_post_start
    (ParseDuration : string -> Z) (st : State) (i : Z) (s : Session) :
  getActiveConnIdx (cp st) = i ->
  at_index (Sessions (cp st)) i = Some (Some s) ->
  post_commands (cp st) <> "" ->
  succeeded (respond s (calls s) (post_commands (cp st))) = false ->
  exists e st',
    Init ParseDuration st = Some ((Some e, []), st') /\
    trace st' = trace st ++ [EvExecute i (post_commands (cp st))] /\
    clock st' = clock st + rtt s (calls s) (post_commands (cp st)).
Proof.
  intros Hi Hs Hne Hfail.
  assert (Hlen : (String.length (post_commands (cp st)) =? 0)%nat = false)
    by (destruct (post_commands (cp st)); [congruence | reflexivity]).
  destruct (exec_run i _ st s Hs Hlen) as (err & Hrun & Hiff).
  destruct err as [e|]; [|rewrite (proj1 Hiff eq_refl) in Hfail; discriminate].
  assert (Hpos : (i =? -1) = false).
  { apply at_index_Some in Hs. apply Z.eqb_neq. lia. }
  exists e, (after_Execute i (post_commands (cp st)) s st).
  split; [|split; reflexivity].
  unfold Init. unfold bind at 1, get. cbv beta iota zeta. rewrite Hi, Hpos.
  unfold post_commands in *.
  destruct (postStart (cp st)) as [[[c|] ap]|]; cbn in *; try congruence.
  now rewrite (bind_Some _ _ _ _ _ Hrun).
Qed.

Lemma Init_stops_at_failed_post_start_witness :
  exists e st',
    Init demo_durations
      (demo_state (demo_pool_post (always storage_error)
                     (Some (mkPostStart (Some "CREATE SPACE basic;") (Some "1s")))) [])
    = Some ((Some e, []), st') /\
    trace st' = [EvExecute 0 "CREATE SPACE basic;"] /\
    clock st' = 5000.
Proof.
  destruct (Init_stops_at_failed_post_start demo_durations
              (demo_state (demo_pool_post (always storage_error)
                             (Some (mkPostStart (Some "CREATE SPACE basic;") (Some "1s")))) [])
              0 (always storage_error) eq_refl eq_refl)
    as (e & st' & H).
  - discriminate.
  - reflexivity.
  - exists e, st'. exact H.
Defined.

(** ** One request: what its attempts change *)

Lemma advanced_after_Execute i stmt s n st st' :
  cp st' = advanced i (mkSession (respond s) (rtt s) (S (calls s)) (released s)) n
             (cp (after_Execute i stmt s st)) ->
  cp st' = advanced i s (S n) (cp st).
Proof.
  intros ->. unfold advanced, after_Execute, with_Sessions. cbn.
  rewrite list_insert_insert_eq.
  replace (S (calls s + n)) with (calls s + S n)%nat by lia. reflexivity.
Qed.

Lemma advanced_one i stmt s st :
  cp (after_Execute i stmt s st) = advanced i s 1 (cp st).
Proof. unfold advanced, after_Execute. cbn. now rewrite Nat.add_1_r. Qed.

Lemma Retry_frame i data :
  forall b v st s,
    at_index (Sessions (cp st)) i = Some (Some s) ->
    exists m oe v' st',
      (m <= length b)%nat /\
      Retry (operation i data) b v st = Some ((oe, v'), st') /\
      trace st' = trace st ++ replicate (S m) (EvExecute i (Stmt data)) /\
      cp st' = advanced i s (S m) (cp st) /\
      timer st' = timer st /\
      clock st' = clock st + rtt_sum (rtt s) (Stmt data) (calls s) (S m) + delay_sum (take m b) /\
      c_err v' = reply_err (respond s (calls s + m) (Stmt data)) /\
      c_resp v' = reply_resp (respond s (calls s + m) (Stmt data)).
Proof.
  induction b as [|next b IH]; intros v st s Hs;
    destruct (operation_run i data v st s Hs) as (oe & n & Hop & _);
    rewrite Retry_unfold, (bind_Some _ _ _ _ _ Hop).
  - exists 0%nat. rewrite Nat.add_0_r.
    destruct oe as [[e|e]|]; do 3 eexists; (split; [lia|]); (split; [reflexivity|]);
      (split; [reflexivity|]); (split; [apply advanced_one|]);
      unfold delay_sum; cbn; repeat split; lia.
  - destruct oe as [[e|e]|].
    + pose proof (session_after_Execute i (Stmt data) st s Hs) as Hs'.
      destruct (IH (mkCaptured (reply_err (respond s (calls s) (Stmt data)))
                      (reply_resp (respond s (calls s) (Stmt data))) n)
                  (slept next (after_Execute i (Stmt data) s st)) _ Hs')
        as (m & oe' & v' & st' & Hm & Hrun & Htr & Hcp & Htm & Hclk & Herr & Hresp).
      exists (S m), oe', v', st'. cbn in Herr, Hresp, Htm, Hclk.
      replace (calls s + S m)%nat with (S (calls s + m)) by lia.
      split; [cbn; lia|]. split; [exact Hrun|].
      split; [rewrite Htr; cbn; now rewrite <- app_assoc|].
      split; [eapply (advanced_after_Execute i (Stmt data)), Hcp|].
      split; [exact Htm|].
      split; [|auto].
      rewrite Hclk. cbn [take delay_sum fold_right rtt_sum]. unfold delay_sum. lia.
    + exists 0%nat. rewrite Nat.add_0_r.
      do 3 eexists. split; [lia|]. split; [reflexivity|].
      (split; [reflexivity|]); (split; [apply advanced_one|]);
      unfold delay_sum; cbn; repeat split; lia.
    + exists 0%nat. rewrite Nat.add_0_r.
      do 3 eexists. split; [lia|]. split; [reflexivity|].
      (split; [reflexivity|]); (split; [apply advanced_one|]);
      unfold delay_sum; cbn; repeat split; lia.
Qed.

Lemma serve_run i data st s :
  at_index (Sessions (cp st)) i = Some (Some s) ->
  exists (m : nat) (st' : State) (outcome : Event),
    (m <= length (timer st (clock st)))%nat /\
    serve i data st = Some (tt, st') /\
    trace st' = trace st ++ replicate (S m) (EvExecute i (Stmt data)) ++ [outcome] /\
    cp st' = advanced i s (S m) (cp st) /\
    timer st' = timer st /\
    clock st' = clock st + rtt_sum (rtt s) (Stmt data) (calls s) (S m)
                + delay_sum (take m (timer st (clock st))) /\
    ((exists e, outcome = EvSendErr (ErrCh data) (mkErrData (Some e) (Request_Data data))) \/
     (exists latency time,
         outcome = EvSendStats (statsCh (cp st))
                     (NewSuccessStats latency time (Z.of_nat (length (Request_Data data)))
                        (importedBytes (Request_Data data))))).
Proof.
  intros Hs.
  destruct (Retry_frame i data (timer st (clock st))
              (mkCaptured None None (retry (cp st))) st s Hs)
    as (m & oe & v' & st1 & Hm & Hrun & Htr & Hcp & Htm & Hclk & Herr & Hresp).
  assert (Hserve : serve i data st = settle i data (clock st) v' st1).
  { unfold serve, NewExponentialBackOff. unfold bind at 1 2, get, ret. cbn.
    now rewrite (bind_Some _ _ _ _ _ Hrun). }
  rewrite Hserve.
  destruct (succeeded (respond s (calls s + m) (Stmt data))) eqn:Hsucc.
  - destruct (succeeded_inv _ Hsucc) as (res & Hres & Hok).
    rewrite Hres in Herr, Hresp. cbn in Herr, Hresp.
    rewrite (settle_success i data (clock st) v' st1 res Herr Hresp Hok).
    exists m. do 2 eexists. split; [exact Hm|]. split; [reflexivity|]. cbn.
    split; [rewrite Htr; now rewrite <- app_assoc|].
    split; [exact Hcp|]. split; [exact Htm|]. split; [exact Hclk|].
    right. rewrite Hcp. cbn. eauto.
  - destruct (settle_failure i data (clock st) v' st1 _ Herr Hresp Hsucc) as (e & Hset).
    rewrite Hset.
    exists m. do 2 eexists. split; [exact Hm|]. split; [reflexivity|]. cbn.
    split; [rewrite Htr; now rewrite <- app_assoc|].
    split; [exact Hcp|]. split; [exact Htm|]. split; [exact Hclk|].
    left. eauto.
Qed.

(** X6. Whatever the server answers and whatever the retry budget is, a
    request is executed at least once and at most [d + 1] times, [d] being
    the number of delays its back-off grants before the elapsed-time cap:
    the cap bounds every request, also one that keeps being reset by
    back-pressure. *)
Theorem serve_attempts_within_backoff
    (i : Z) (data : ClientRequest) (st : State) (s : Session) :
  at_index (Sessions (cp st)) i = Some (Some s) ->
  exists (n : nat) (st' : State) (outcome : Event),
    serve i data st = Some (tt, st') /\
    trace st' = trace st ++ replicate n (EvExecute i (Stmt data)) ++ [outcome] /\
    is_send outcome = true /\
    (1 <= n <= length (timer st (clock st)) + 1)%nat.
Proof.
  intros Hs.
  destruct (serve_run i data st s Hs)
    as (m & st' & o & Hm & Hrun & Htr & _ & _ & _ & Ho).
  exists (S m), st', o. split; [exact Hrun|]. split; [exact Htr|].
  split; [|lia].
  destruct Ho as [(e & ->) | (l & t & ->)]; reflexivity.
Qed.

Lemma serve_attempts_within_backoff_witness :
  exists (n : nat) (st' : State),
    serve 0 (demo_request "INSERT 1" 3)
      (demo_state (demo_pool (always raft_reply) [] false None) [1000; 1500; 2250])
    = Some (tt, st') /\
    (1 <= n <= 4)%nat.
Proof.
  destruct (serve_attempts_within_backoff 0 (demo_request "INSERT 1" 3)
              (demo_state (demo_pool (always raft_reply) [] false None) [1000; 1500; 2250])
              (always raft_reply) eq_refl)
    as (n & st' & o & Hrun & _ & _ & Hn).
  exists n, st'. split; [exact Hrun | exact Hn].
Defined.

(** X7. The wall time a request takes is the time of its attempts plus the
    back-off delays slept between them: with [m + 1] attempts the clock
    moves on by the round-trip times of these [m + 1] calls and the first
    [m] delays of the back-off.  This is the time from which the reported
    request time is taken. *)
Theorem serve_wall_time_counts_retries
    (i : Z) (data : ClientRequest) (st : State) (s : Session) :
  at_index (Sessions (cp st)) i = Some (Some s) ->
  exists (m : nat) (st' : State) (outcome : Event),
    serve i data st = Some (tt, st') /\
    trace st' = trace st ++ replicate (S m) (EvExecute i (Stmt data)) ++ [outcome] /\
    clock st' - clock st
    = rtt_sum (rtt s) (Stmt data) (calls s) (S m) + delay_sum (take m (timer st (clock st))) /\
    forall stats_ch stats, outcome = EvSendStats stats_ch stats ->
      ReqTime stats = Z.quot (clock st' - clock st) 1000.
Proof.
  intros Hs.
  destruct (Retry_frame i data (timer st (clock st))
              (mkCaptured None None (retry (cp st))) st s Hs)
    as (m & oe & v' & st1 & Hm & Hrun & Htr & Hcp & Htm & Hclk & Herr & Hresp).
  assert (Hserve : serve i data st = settle i data (clock st) v' st1).
  { unfold serve, NewExponentialBackOff. unfold bind at 1 2, get, ret. cbn.
    now rewrite (bind_Some _ _ _ _ _ Hrun). }
  rewrite Hserve.
  destruct (succeeded (respond s (calls s + m) (Stmt data))) eqn:Hsucc.
  - destruct (succeeded_inv _ Hsucc) as (res & Hres & Hok).
    rewrite Hres in Herr, Hresp. cbn in Herr, Hresp.
    rewrite (settle_success i data (clock st) v' st1 res Herr Hresp Hok).
    exists m. do 2 eexists. split; [reflexivity|]. unfold logged. cbn [trace clock].
    split; [rewrite Htr; now rewrite <- app_assoc|].
    split; [lia|]. intros ch stats [= _ <-]. reflexivity.
  - destruct (settle_failure i data (clock st) v' st1 _ Herr Hresp Hsucc) as (e & Hset).
    rewrite Hset.
    exists m. do 2 eexists. split; [reflexivity|]. unfold logged. cbn [trace clock].
    split; [rewrite Htr; now rewrite <- app_assoc|].
    split; [lia|]. intros ch stats [=].
Qed.

Lemma serve_wall_time_counts_retries_witness :
  exists (m : nat) (st' : State),
    serve 0 (demo_request "INSERT 1" 3)
      (demo_state (demo_pool (always storage_error) [] false None) [1000; 1500; 2250])
    = Some (tt, st') /\
    clock st' - 0
    = rtt_sum (fun _ _ => 5000) "INSERT 1" 0 (S m) + delay_sum (take m [1000; 1500; 2250]).
Proof.
  destruct (serve_wall_time_counts_retries 0 (demo_request "INSERT 1" 3)
              (demo_state (demo_pool (always storage_error) [] false None) [1000; 1500; 2250])
              (always storage_error) eq_refl)
    as (m & st' & o & Hrun & _ & Hclk & _).
  exists m, st'. split; [exact Hrun | exact Hclk].
Defined.

(** X8. Serving a request on slot [i] changes nothing of the pool but the
    call count of session [i]: the sessions of the other slots, all the
    queues, the connection pool and the settings stay as they were, and
    session [i] is neither released nor replaced. *)
Theorem serve_touches_only_its_session
    (i : Z) (data : ClientRequest) (st : State) (s : Session) :
  at_index (Sessions (cp st)) i = Some (Some s) ->
  exists (m : nat) (st' : State),
    serve i data st = Some (tt, st') /\
    at_index (Sessions (cp st')) i
    = Some (Some (mkSession (respond s) (rtt s) (calls s + S m) (released s))) /\
    (forall j, j <> i -> at_index (Sessions (cp st')) j = at_index (Sessions (cp st)) j) /\
    requestChs (cp st') = requestChs (cp st) /\
    pool (cp st') = pool (cp st) /\
    (retry (cp st'), concurrency (cp st'), space (cp st'), statsCh (cp st'))
    = (retry (cp st), concurrency (cp st), space (cp st), statsCh (cp st)).
Proof.
  intros Hs.
  destruct (serve_run i data st s Hs) as (m & st' & o & _ & Hrun & _ & Hcp & _).
  exists m, st'. split; [exact Hrun|]. rewrite Hcp. unfold advanced. cbn.
  split; [eapply at_index_insert, Hs|].
  split; [|auto].
  intros j Hj. unfold at_index. destruct (j <? 0) eqn:Hneg; [reflexivity|].
  apply Z.ltb_ge in Hneg. apply at_index_Some in Hs as [Hi _].
  apply list_lookup_insert_ne. lia.
Qed.

Lemma serve_touches_only_its_session_witness :
  exists (st' : State),
    serve 1 (demo_request "INSERT 1" 3) (demo_state (demo_pool2 (always ok_reply)) [])
    = Some (tt, st') /\
    at_index (Sessions (cp st')) 0 = Some (Some (always ok_reply)) /\
    requestChs (cp st') = [Some (mkChan [] 16 false); Some (mkChan [] 16 false)].
Proof.
  destruct (serve_touches_only_its_session 1 (demo_request "INSERT 1" 3)
              (demo_state (demo_pool2 (always ok_reply)) []) (always ok_reply) eq_refl)
    as (m & st' & Hrun & _ & Hother & Hq & _).
  exists st'. split; [exact Hrun|]. split; [|exact Hq].
  rewrite (Hother 0); [reflexivity | discriminate].
Defined.

(** ** Recovery and back-pressure *)

Lemma operation_success i data v st s :
  at_index (Sessions (cp st)) i = Some (Some s) ->
  let r := respond s (calls s) (Stmt data) in
  succeeded r = true ->
  operation i data v st
  = Some ((None, mkCaptured (reply_err r) (reply_resp r) (c_retry v)),
          after_Execute i (Stmt data) s st).
Proof.
  intros Hs r Hsucc. unfold operation.
  rewrite (bind_Some _ _ _ _ _ (Execute_run _ _ _ _ Hs)).
  unfold bind, get. cbn. fold r. now rewrite Hsucc.
Qed.

Lemma Retry_recovers i data :
  forall m b v st s,
    at_index (Sessions (cp st)) i = Some (Some s) ->
    (forall j, (j < m)%nat -> bounded_failure (respond s (calls s + j) (Stmt data)) = true) ->
    succeeded (respond s (calls s + m) (Stmt data)) = true ->
    Z.of_nat m <= c_retry v ->
    (m <= length b)%nat ->
    exists v' st',
      Retry (operation i data) b v st = Some ((None, v'), st') /\
      trace st' = trace st ++ replicate (S m) (EvExecute i (Stmt data)) /\
      c_err v' = reply_err (respond s (calls s + m) (Stmt data)) /\
      c_resp v' = reply_resp (respond s (calls s + m) (Stmt data)) /\
      c_retry v' = c_retry v - Z.of_nat m /\
      cp st' = advanced i s (S m) (cp st) /\
      clock st' = clock st + rtt_sum (rtt s) (Stmt data) (calls s) (S m) + delay_sum (take m b).
Proof.
  induction m as [|m IH]; intros b v st s Hs Hfail Hsucc Hk Hb.
  - rewrite Nat.add_0_r in Hsucc.
    rewrite Retry_unfold, (bind_Some _ _ _ _ _ (operation_success i data v st s Hs Hsucc)).
    do 2 eexists. split; [reflexivity|]. rewrite Nat.add_0_r.
    split; [reflexivity|]. split; [reflexivity|]. split; [reflexivity|].
    split; [cbn; lia|]. split; [apply advanced_one|].
    change (take 0 b) with (@nil Z). unfold delay_sum. cbn. lia.
  - destruct b as [|next b]; [cbn in Hb; lia|].
    pose proof (Hfail 0%nat ltac:(lia)) as H0. rewrite Nat.add_0_r in H0.
    rewrite Retry_unfold, (bind_Some _ _ _ _ _ (operation_bounded i data v st s Hs H0)).
    destruct (c_retry v <=? 0) eqn:Hz; [apply Z.leb_le in Hz; lia|].
    pose proof (session_after_Execute i (Stmt data) st s Hs) as Hs'.
    destruct (IH b (mkCaptured (reply_err (respond s (calls s) (Stmt data)))
                      (reply_resp (respond s (calls s) (Stmt data))) (c_retry v - 1))
                (slept next (after_Execute i (Stmt data) s st)) _ Hs')
      as (v' & st' & Hrun & Htr & Herr & Hresp & Hcnt & Hcp & Hclk).
    { cbn. intros j Hj. replace (S (calls s + j))%nat with (calls s + S j)%nat by lia.
      apply Hfail. lia. }
    { cbn. replace (S (calls s + m))%nat with (calls s + S m)%nat by lia. exact Hsucc. }
    { cbn. lia. }
    { cbn in Hb. lia. }
    exists v', st'. cbn in Herr, Hresp, Hcnt, Hclk.
    replace (S (calls s + m)) with (calls s + S m)%nat in Herr, Hresp by lia.
    split; [exact Hrun|].
    split; [rewrite Htr; cbn; now rewrite <- app_assoc|].
    split; [exact Herr|]. split; [exact Hresp|]. split; [lia|].
    split; [eapply (advanced_after_Execute i (Stmt data)), Hcp|].
    rewrite Hclk. cbn [take rtt_sum]. unfold delay_sum. cbn [fold_right]. lia.
Qed.

(** X9. A request whose first [m] attempts fail in the bounded class and
    whose next attempt succeeds is a success when [m] is within the retry
    budget and within the delays the back-off grants: it is executed
    [m + 1] times, and the one record it leaves is the statistics of the
    last response on the shared channel, with the time of all attempts and
    delays; nothing goes to its error channel. *)
Theorem serve_recovers_within_budget
    (i : Z) (data : ClientRequest) (st : State) (s : Session) (m : nat) (res : ResultSet) :
  at_index (Sessions (cp st)) i = Some (Some s) ->
  (forall j, (j < m)%nat -> bounded_failure (respond s (calls s + j) (Stmt data)) = true) ->
  respond s (calls s + m) (Stmt data) = ReplyResp res ->
  IsSucceed res = true ->
  Z.of_nat m <= retry (cp st) ->
  (m <= length (timer st (clock st)))%nat ->
  exists st',
    serve i data st = Some (tt, st') /\
    trace st' = trace st ++ replicate (S m) (EvExecute i (Stmt data)) ++
      [EvSendStats (statsCh (cp st))
         (NewSuccessStats (GetLatency res)
            (Z.quot (rtt_sum (rtt s) (Stmt data) (calls s) (S m)
                     + delay_sum (take m (timer st (clock st)))) 1000)
            (Z.of_nat (length (Request_Data data)))
            (importedBytes (Request_Data data)))].
Proof.
  intros Hs Hfail Hres Hok Hk Hb.
  destruct (Retry_recovers i data m (timer st (clock st))
              (mkCaptured None None (retry (cp st))) st s Hs Hfail)
    as (v' & st1 & Hrun & Htr & Herr & Hresp & _ & Hcp & Hclk); [| exact Hk | exact Hb |].
  { rewrite Hres. exact Hok. }
  rewrite Hres in Herr, Hresp. cbn in Herr, Hresp.
  eexists. split.
  - unfold serve, NewExponentialBackOff. unfold bind at 1 2, get, ret. cbn.
    rewrite (bind_Some _ _ _ _ _ Hrun). cbn.
    apply (settle_success i data (clock st) v' st1 res Herr Hresp Hok).
  - unfold logged. cbn [trace]. rewrite Htr, Hcp, Hclk. cbn [statsCh advanced with_Sessions].
    rewrite <- app_assoc.
    match goal with
    | |- context [Z.quot (?c + ?x + ?y - ?c) 1000] =>
        replace (c + x + y - c) with (x + y) by lia
    end.
    reflexivity.
Qed.

Lemma serve_recovers_within_budget_witness :
  exists st',
    serve 0 (demo_request "INSERT 1" 3)
      (demo_state
         (demo_pool (scripted (fun n => match n with 2%nat => ok_reply | _ => storage_error end))
            [] false None)
         [1000; 1500; 2250])
    = Some (tt, st') /\
    trace st' = [EvExecute 0 "INSERT 1"; EvExecute 0 "INSERT 1"; EvExecute 0 "INSERT 1";
                 EvSendStats 7 (NewSuccessStats 120 17 2 30)].
Proof.
  destruct (serve_recovers_within_budget 0 (demo_request "INSERT 1" 3)
              (demo_state
                 (demo_pool
                    (scripted (fun n => match n with 2%nat => ok_reply | _ => storage_error end))
                    [] false None)
                 [1000; 1500; 2250])
              (scripted (fun n => match n with 2%nat => ok_reply | _ => storage_error end))
              2 (mkResultSet ErrorCode_SUCCEEDED "" 120) eq_refl)
    as (st' & Hrun & Htr).
  - intros [|[|j]] Hj; [reflexivity | reflexivity | lia].
  - reflexivity.
  - reflexivity.
  - cbn. lia.
  - cbn. lia.
  - exists st'. split; [exact Hrun | exact Htr].
Defined.

Lemma backpressure_failure_inv r :
  backpressure_failure r = true ->
  succeeded r = false /\
  exists res, reply_resp r = Some res /\
              isPermanentError (GetErrorCode res) = false /\
              Contains (GetErrorMsg res) raft_buffer_full = true.
Proof.
  unfold backpressure_failure. intros H. apply andb_true_iff in H as [Hns H].
  apply negb_true_iff in Hns. split; [exact Hns|].
  destruct (reply_resp r) as [res|]; [|discriminate].
  apply andb_true_iff in H as [Hp Hc]. apply negb_true_iff in Hp. eauto.
Qed.

Lemma Retry_backpressure i data :
  forall b v st s,
    at_index (Sessions (cp st)) i = Some (Some s) ->
    (forall n, (calls s <= n)%nat ->
               backpressure_failure (respond s n (Stmt data)) = true) ->
    exists e v' st' r,
      Retry (operation i data) b v st = Some ((Some e, v'), st') /\
      trace st' = trace st ++ replicate (S (length b)) (EvExecute i (Stmt data)) /\
      c_retry v' = retry (cp st) /\
      c_err v' = reply_err r /\ c_resp v' = reply_resp r /\ succeeded r = false.
Proof.
  induction b as [|next b IH]; intros v st s Hs Hall;
    destruct (backpressure_failure_inv _ (Hall _ (Nat.le_refl _)))
      as (Hns & res & Hres & Hperm & Hraft);
    pose proof (operation_backpressure i data v st s res Hs Hns Hres Hperm Hraft) as Hop;
    rewrite Retry_unfold, (bind_Some _ _ _ _ _ Hop).
  - do 4 eexists. split; [reflexivity|]. split; [reflexivity|]. split; [reflexivity|].
    rewrite <- Hres. eauto.
  - pose proof (session_after_Execute i (Stmt data) st s Hs) as Hs'.
    destruct (IH (mkCaptured (reply_err (respond s (calls s) (Stmt data))) (Some res)
                    (retry (cp st)))
                (slept next (after_Execute i (Stmt data) s st)) _ Hs')
      as (e & v' & st' & r & Hrun & Htr & Hcnt & Hrest).
    { cbn. intros n Hn. apply Hall. lia. }
    exists e, v', st', r. split; [exact Hrun|].
    split; [rewrite Htr; cbn; now rewrite <- app_assoc|].
    split; [exact Hcnt | exact Hrest].
Qed.

(** X10. While the server keeps answering with the back-pressure text under
    a code that is not permanent, the retry budget is never used up: the
    request is attempted again after every delay the back-off grants, so
    [d + 1] times for [d] delays, whatever the budget is (also a budget of
    0).  Only the elapsed-time cap ends it, and then as a failure: one
    [ErrData] with the payload on the request's error channel. *)
Theorem serve_backpressure_retries_until_the_cap
    (i : Z) (data : ClientRequest) (st : State) (s : Session) :
  at_index (Sessions (cp st)) i = Some (Some s) ->
  (forall n, (calls s <= n)%nat -> backpressure_failure (respond s n (Stmt data)) = true) ->
  exists e st',
    serve i data st = Some (tt, st') /\
    trace st' = trace st ++
      replicate (S (length (timer st (clock st)))) (EvExecute i (Stmt data)) ++
      [EvSendErr (ErrCh data) (mkErrData (Some e) (Request_Data data))].
Proof.
  intros Hs Hall.
  destruct (Retry_backpressure i data (timer st (clock st))
              (mkCaptured None None (retry (cp st))) st s Hs Hall)
    as (e0 & v' & st1 & r & Hrun & Htr & _ & Herr & Hresp & Hns).
  destruct (settle_failure i data (clock st) v' st1 r Herr Hresp Hns) as (e & Hset).
  exists e. eexists. split.
  - unfold serve, NewExponentialBackOff. unfold bind at 1 2, get, ret. cbn.
    rewrite (bind_Some _ _ _ _ _ Hrun). cbn. exact Hset.
  - unfold logged. cbn [trace]. rewrite Htr. now rewrite <- app_assoc.
Qed.

Lemma serve_backpressure_retries_until_the_cap_witness :
  exists e st',
    serve 0 (demo_request "INSERT 1" 3)
      (demo_state
         (mkClientPool 0 1 "basic" None None 7
            (mkConnectionPool (fun _ _ _ => inl (always raft_reply)) 1 false)
            [Some (always raft_reply)] [Some (mkChan [] 16 false)])
         [1000; 1500; 2250])
    = Some (tt, st') /\
    trace st' = replicate 4 (EvExecute 0 "INSERT 1") ++
                [EvSendErr 3 (mkErrData (Some e) (Request_Data (demo_request "INSERT 1" 3)))].
Proof.
  destruct (serve_backpressure_retries_until_the_cap 0 (demo_request "INSERT 1" 3)
              (demo_state
                 (mkClientPool 0 1 "basic" None None 7
                    (mkConnectionPool (fun _ _ _ => inl (always raft_reply)) 1 false)
                    [Some (always raft_reply)] [Some (mkChan [] 16 false)])
                 [1000; 1500; 2250])
              (always raft_reply) eq_refl)
    as (e & st' & Hrun & Htr).
  - intros n _. reflexivity.
  - exists e, st'. split; [exact Hrun | exact Htr].
Defined.

(** ** The worker on its queue *)

Lemma sends_app a b : sends (a ++ b) = sends a ++ sends b.
Proof. unfold sends. apply List.filter_app. Qed.

Lemma sends_replicate_Execute n i stmt : sends (replicate n (EvExecute i stmt)) = [].
Proof. induction n as [|n IH]; [reflexivity | exact IH]. Qed.

Lemma advanced_zero i s p :
  at_index (Sessions p) i = Some (Some s) -> advanced i s 0 p = p.
Proof.
  intros H. apply at_index_Some in H as [_ H]. unfold advanced, with_Sessions.
  rewrite Nat.add_0_r. destruct s. cbn. rewrite (list_insert_id _ _ _ H). now destruct p.
Qed.

Lemma advanced_advanced i s n m p :
  advanced i (mkSession (respond s) (rtt s) (calls s + n) (released s)) m (advanced i s n p)
  = advanced i s (n + m) p.
Proof.
  unfold advanced, with_Sessions. cbn. rewrite list_insert_insert_eq.
  now rewrite Nat.add_assoc.
Qed.

Lemma worker_loop_run i c :
  forall q st s,
    at_index (Sessions (cp st)) i = Some (Some s) ->
    exists (st' : State) (evs : list Event) (n : nat),
      worker_loop i c q st = Some (if closed c then Returned else Waiting, st') /\
      trace st' = trace st ++ evs /\
      Forall2 (outcome_of (statsCh (cp st))) q (sends evs) /\
      cp st' = advanced i s n
                 (match q with
                  | [] => cp st
                  | _ :: _ =>
                      with_requestChs
                        (<[Z.to_nat i := Some (mkChan [] (cap c) (closed c))]>
                           (requestChs (cp st)))
                        (cp st)
                  end).
Proof.
  induction q as [|data q IH]; intros st s Hs.
  - exists st, [], 0%nat. split; [reflexivity|]. split; [now rewrite app_nil_r|].
    split; [constructor|]. now rewrite (advanced_zero i s (cp st) Hs).
  - cbn [worker_loop]. unfold bind at 1, set_buf, modify. fold (dequeued i c q st).
    destruct (String.eqb (Stmt data) STAT_FILEDONE) eqn:Hsent.
    + unfold bind at 1, emit.
      change (mkState (cp (dequeued i c q st)) (clock (dequeued i c q st))
                (timer (dequeued i c q st))
                (trace (dequeued i c q st) ++ [EvSendErr (ErrCh data) (mkErrData None [])]))
        with (logged [EvSendErr (ErrCh data) (mkErrData None [])] (dequeued i c q st)).
      destruct (IH (logged [EvSendErr (ErrCh data) (mkErrData None [])] (dequeued i c q st)) s)
        as (st' & evs & n & Hrun & Htr & Hout & Hcp); [exact Hs|].
      exists st', (EvSendErr (ErrCh data) (mkErrData None []) :: evs), n.
      split; [exact Hrun|]. split; [rewrite Htr; cbn; now rewrite <- app_assoc|].
      split.
      * cbn. constructor; [unfold outcome_of; now rewrite Hsent | exact Hout].
      * rewrite Hcp. cbn. destruct q; cbn; [reflexivity|].
        unfold with_requestChs. cbn. now rewrite list_insert_insert_eq.
    + destruct (serve_run i data (dequeued i c q st) s Hs)
        as (m & st1 & o & _ & Hserve & Htr1 & Hcp1 & _ & _ & Ho).
      rewrite (bind_Some _ _ _ _ _ Hserve).
      assert (Hs1 : at_index (Sessions (cp st1)) i
                    = Some (Some (mkSession (respond s) (rtt s) (calls s + S m) (released s)))).
      { rewrite Hcp1. unfold advanced. cbn. eapply at_index_insert, Hs. }
      destruct (IH st1 _ Hs1) as (st' & evs & n & Hrun & Htr & Hout & Hcp).
      exists st', (replicate (S m) (EvExecute i (Stmt data)) ++ [o] ++ evs), (S m + n)%nat.
      split; [exact Hrun|].
      split; [rewrite Htr, Htr1; unfold dequeued; cbn [trace]; now rewrite <- !app_assoc|].
      split.
      * rewrite sends_app, sends_replicate_Execute, sends_app. cbn [app].
        assert (Hso : sends [o] = [o]) by (destruct Ho as [(e & ->) | (l & t & ->)]; reflexivity).
        rewrite Hso. cbn [app]. constructor.
        -- unfold outcome_of. rewrite Hsent. exact Ho.
        -- rewrite Hcp1 in Hout. exact Hout.
      * rewrite Hcp, Hcp1. cbn [cp dequeued].
        destruct q as [|data' q'].
        -- apply advanced_advanced.
        -- rewrite <- advanced_advanced. f_equal.
           unfold advanced, with_requestChs, with_Sessions. cbn.
           now rewrite list_insert_insert_eq.
Qed.

Lemma drain_run i st s c :
  at_index (Sessions (cp st)) i = Some (Some s) ->
  at_index (requestChs (cp st)) i = Some (Some c) ->
  exists (st' : State) (evs : list Event),
    drain i st = Some (if closed c then Returned else Waiting, st') /\
    trace st' = trace st ++ evs /\
    Forall2 (outcome_of (statsCh (cp st))) (buf c) (sends evs) /\
    at_index (requestChs (cp st')) i = Some (Some (mkChan [] (cap c) (closed c))).
Proof.
  intros Hs Hc.
  destruct (worker_loop_run i c (buf c) st s Hs) as (st' & evs & n & Hrun & Htr & Hout & Hcp).
  exists st', evs. split.
  - unfold drain, chan_at. unfold bind at 1 2, get. cbn. rewrite Hc. exact Hrun.
  - split; [exact Htr|]. split; [exact Hout|]. rewrite Hcp. unfold advanced. cbn.
    destruct (buf c) eqn:Hbuf; cbn.
    + rewrite Hc. destruct c; cbn in *. now subst.
    + eapply at_index_insert, Hc.
Qed.

(** X11. A worker whose [USE] statement succeeded handles what is in its
    queue in the order of the queue and leaves exactly one record per
    request, in that order: for the sentinel an [ErrData] without error on
    the sentinel's channel, for any other request either an [ErrData] with
    an error and the payload on the request's error channel or statistics
    of the payload on the shared channel.  Apart from these records the
    worker only executes statements.  It empties the queue, and it returns
    if the queue was closed and waits on it otherwise. *)
Theorem startWorker_answers_requests_in_queue_order
    (i : Z) (st : State) (s : Session) (c : Chan) :
  at_index (Sessions (cp st)) i = Some (Some s) ->
  at_index (requestChs (cp st)) i = Some (Some c) ->
  succeeded (respond s (calls s) (USE (space (cp st)))) = true ->
  exists (st' : State) (evs : list Event),
    startWorker i st = Some (if closed c then Returned else Waiting, st') /\
    trace st' = trace st ++ EvExecute i (USE (space (cp st))) :: evs /\
    Forall2 (outcome_of (statsCh (cp st))) (buf c) (sends evs) /\
    at_index (requestChs (cp st')) i = Some (Some (mkChan [] (cap c) (closed c))).
Proof.
  intros Hs Hc Huse.
  destruct (exec_run i (USE (space (cp st))) st s Hs (USE_not_empty _)) as (err & Hexec & Herr).
  apply Herr in Huse. subst err.
  destruct (drain_run i (after_Execute i (USE (space (cp st))) s st) _ c
              (session_after_Execute i _ st s Hs) Hc)
    as (st' & evs & Hrun & Htr & Hout & Hq).
  exists st', evs. split.
  - unfold startWorker. unfold bind at 1, get. cbn.
    rewrite (bind_Some _ _ _ _ _ Hexec). exact Hrun.
  - split; [rewrite Htr; cbn; now rewrite <- app_assoc|]. split; [exact Hout | exact Hq].
Qed.

Lemma startWorker_answers_requests_in_queue_order_witness :
  exists (st' : State) (evs : list Event),
    startWorker 0
      (demo_state
         (demo_pool (scripted (fun n => match n with 2%nat => storage_error | _ => ok_reply end))
            [demo_request "INSERT 1" 1; demo_request STAT_FILEDONE 2; demo_request "INSERT 3" 3]
            true None) [])
    = Some (Returned, st') /\
    trace st' = EvExecute 0 "USE `basic`;" :: evs /\
    Forall2 (outcome_of 7)
      [demo_request "INSERT 1" 1; demo_request STAT_FILEDONE 2; demo_request "INSERT 3" 3]
      (sends evs).
Proof.
  destruct (startWorker_answers_requests_in_queue_order 0
              (demo_state
                 (demo_pool
                    (scripted (fun n => match n with 2%nat => storage_error | _ => ok_reply end))
                    [demo_request "INSERT 1" 1; demo_request STAT_FILEDONE 2;
                     demo_request "INSERT 3" 3]
                    true None) [])
              (scripted (fun n => match n with 2%nat => storage_error | _ => ok_reply end))
              (mkChan [demo_request "INSERT 1" 1; demo_request STAT_FILEDONE 2;
                       demo_request "INSERT 3" 3] 16 true)
              eq_refl eq_refl eq_refl)
    as (st' & evs & Hrun & Htr & Hout & _).
  exists st', evs. split; [exact Hrun|]. split; [exact Htr | exact Hout].
Defined.

Lemma startWorker_panics i st :
  (forall s, at_index (Sessions (cp st)) i <> Some (Some s)) ->
  startWorker i st = None.
Proof.
  intros H. unfold startWorker. unfold bind at 1, get. cbv beta iota zeta.
  unfold bind at 1. now rewrite (exec_panics i _ st (USE_not_empty _) H).
Qed.

(** X12. [startWorker i] needs a session in slot [i] and a queue slot [i]:
    with both it returns or comes to wait on its queue, whatever the server
    answers and whatever is queued; without a session in slot [i] (a nil
    slot, or an index outside the slice) it panics on its first
    statement. *)
Theorem startWorker_returns_or_panics (i : Z) (st : State) :
  match at_index (Sessions (cp st)) i with
  | Some (Some s) =>
      forall c, at_index (requestChs (cp st)) i = Some c ->
        exists e st', startWorker i st = Some (e, st')
  | _ => startWorker i st = None
  end.
Proof.
  destruct (at_index (Sessions (cp st)) i) as [[s|]|] eqn:Hs.
  - intros c Hc.
    destruct (exec_run i (USE (space (cp st))) st s Hs (USE_not_empty _)) as (err & Hexec & _).
    unfold startWorker. unfold bind at 1, get. cbn. rewrite (bind_Some _ _ _ _ _ Hexec).
    destruct err as [e|]; [do 2 eexists; reflexivity|].
    destruct c as [c|].
    + destruct (drain_run i (after_Execute i (USE (space (cp st))) s st) _ c
                  (session_after_Execute i _ st s Hs) Hc) as (st' & evs & Hrun & _).
      rewrite Hrun. eauto.
    + unfold drain, chan_at. unfold bind at 1 2, get. cbn. rewrite Hc. do 2 eexists. reflexivity.
  - apply startWorker_panics. congruence.
  - apply startWorker_panics. congruence.
Qed.

Lemma worker_indices_In n j : 0 <= j < n -> In j (worker_indices n).
Proof.
  intros Hj. apply list_elem_of_In. unfold worker_indices.
  apply (list_elem_of_lookup_2 _ (Z.to_nat j)).
  rewrite list_lookup_fmap, lookup_seq_lt by lia. cbn. f_equal. lia.
Qed.

Lemma Init_other_sessions ParseDuration i commands use s s1 st j :
  0 <= i -> j <> i ->
  at_index
    (Sessions (cp (after_Execute i use s1
                     (settled ParseDuration (cp st) (after_exec i commands s st))))) j
  = at_index (Sessions (cp st)) j.
Proof.
  intros Hi Hj. unfold at_index. destruct (j <? 0) eqn:Hneg; [reflexivity|].
  apply Z.ltb_ge in Hneg. cbn.
  rewrite list_lookup_insert_ne by lia.
  unfold settled, after_exec.
  destruct (postStart (cp st)) as [ps|]; [destruct (AfterPeriod ps)|];
    destruct (String.length commands =? 0)%nat; cbn;
    rewrite ?list_lookup_insert_ne by lia; reflexivity.
Qed.

(** X13. [Init] starts a worker for every index below [concurrency], also
    for a slot that holds no session: when [Init] returns nil on a pool
    with a nil slot [j], worker [j] is among the workers started, and that
    worker panics at its first statement. *)
Theorem Init_starts_workers_on_nil_slots
    (ParseDuration : string -> Z) (st st' : State) (i j : Z) (s : Session) (ws : list Z) :
  getActiveConnIdx (cp st) = i ->
  at_index (Sessions (cp st)) i = Some (Some s) ->
  post_start_complete (cp st) ->
  Init ParseDuration st = Some ((None, ws), st') ->
  0 <= j < concurrency (cp st) ->
  at_index (Sessions (cp st)) j = Some None ->
  In j ws /\ startWorker j st' = None.
Proof.
  intros Hi Hs Hc Hinit Hj Hnil.
  pose proof (Init_cases ParseDuration st i s Hi Hs Hc) as H. cbv zeta in H.
  destruct (exec_ok (post_commands (cp st)) s);
    [destruct (exec_ok (USE (space (cp st))) _)|].
  - rewrite H in Hinit. injection Hinit as <- <-.
    split; [apply worker_indices_In, Hj|].
    apply startWorker_panics. intros s'.
    rewrite Init_other_sessions; [congruence | | congruence].
    apply at_index_Some in Hs. lia.
  - destruct H as [e H]. rewrite H in Hinit. discriminate.
  - destruct H as [e H]. rewrite H in Hinit. discriminate.
Qed.

Lemma Init_starts_workers_on_nil_slots_witness :
  exists st',
    Init demo_durations (demo_state (demo_pool_gap (always ok_reply) None) [])
    = Some ((None, [0; 1]), st') /\
    In 0 [0; 1] /\ startWorker 0 st' = None.
Proof.
  exists (after_Execute 1 "USE `basic`;" (always ok_reply)
            (demo_state (demo_pool_gap (always ok_reply) None) [])).
  split; [reflexivity|].
  apply (Init_starts_workers_on_nil_slots demo_durations
           (demo_state (demo_pool_gap (always ok_reply) None) []) _ 1 0 (always ok_reply) [0; 1]);
    try reflexivity.
  - intros ps [=].
  - cbn. lia.
Defined.

(** ** Close: the pre-stop batch, and closing twice *)

Lemma Close_skips_pre_stop st :
  pre_stop_commands (cp st) = "" \/ getActiveConnIdx (cp st) = -1 ->
  Close st = Close_rest_of (concurrency (cp st)) st.
Proof.
  intros H. unfold Close, Close_rest_of. unfold bind at 1. unfold get. cbv beta iota zeta.
  unfold pre_stop_commands in H.
  destruct (preStop (cp st)) as [[[commands|]]|]; cbn [PreStop_Commands] in *;
    try reflexivity.
  destruct (getActiveConnIdx (cp st) =? -1) eqn:Hidx; cbn [negb]; [reflexivity|].
  apply Z.eqb_neq in Hidx. destruct H as [-> | H]; [reflexivity | contradiction].
Qed.

Lemma logged_nil st : logged [] st = st.
Proof. unfold logged. rewrite app_nil_r. now destruct st. Qed.

Lemma Close_runs_pre_stop st i s :
  pre_stop_commands (cp st) <> "" ->
  getActiveConnIdx (cp st) = i ->
  at_index (Sessions (cp st)) i = Some (Some s) ->
  exists log,
    Close st = Close_rest_of (concurrency (cp st))
                 (logged log (after_Execute i (pre_stop_commands (cp st)) s st)) /\
    (succeeded (respond s (calls s) (pre_stop_commands (cp st))) = true -> log = []) /\
    (succeeded (respond s (calls s) (pre_stop_commands (cp st))) = false ->
       exists e, log = [EvLogError e]).
Proof.
  intros Hne Hi Hs.
  assert (Hlen : (String.length (pre_stop_commands (cp st)) =? 0)%nat = false)
    by (destruct (pre_stop_commands (cp st)); [congruence | reflexivity]).
  destruct (exec_run i _ st s Hs Hlen) as (err & Hrun & Hiff).
  assert (Hpos : (i =? -1) = false).
  { apply at_index_Some in Hs. apply Z.eqb_neq. lia. }
  exists (match err with Some e => [EvLogError e] | None => [] end).
  split; [|split].
  - unfold Close, Close_rest_of. unfold bind at 1. unfold get. cbv beta iota zeta.
    unfold pre_stop_commands in *.
    destruct (preStop (cp st)) as [[[commands|]]|]; cbn [PreStop_Commands] in *;
      try congruence.
    rewrite Hi, Hpos. cbn [negb].
    unfold bind at 1. unfold bind at 1. rewrite Hrun.
    destruct err as [e|]; [reflexivity|].
    unfold ret. now rewrite logged_nil.
  - intros Hok. apply Hiff in Hok. now subst err.
  - intros Hfail. destruct err as [e|]; [eauto|].
    rewrite (proj1 Hiff eq_refl) in Hfail. discriminate.
Qed.

Ltac run_slot Hs Hc :=
  cbn [Close_loop];
  cbv beta iota delta [bind get chan_at Release session_at close put_session modify emit ret panic];
  repeat (rewrite ?at_index_nat, ?Hs, ?Hc; cbv beta iota;
          cbn [cp requestChs Sessions with_Sessions with_requestChs]).

Lemma Close_loop_step_cases n k st :
  Close_loop (S n) (Z.of_nat k) st =
  match Sessions (cp st) !! k, requestChs (cp st) !! k with
  | Some s, Some c =>
      if match c with Some ch => closed ch | None => false end then None
      else Close_loop n (Z.of_nat (S k)) (slot_closed k s c st)
  | _, _ => None
  end.
Proof.
  destruct (Sessions (cp st) !! k) as [s|] eqn:Hs.
  - destruct (requestChs (cp st) !! k) as [c|] eqn:Hc.
    + destruct (match c with Some ch => closed ch | None => false end) eqn:Hclosed.
      * destruct c as [ch|]; [|discriminate].
        destruct s as [s|]; run_slot Hs Hc; now rewrite Hclosed.
      * apply Close_loop_step; [exact Hs | exact Hc |].
        intros ch ->. exact Hclosed.
    + destruct s as [s|]; run_slot Hs Hc; reflexivity.
  - run_slot Hs Hs. reflexivity.
Qed.

Lemma Close_loop_frame :
  forall n k st st',
    Close_loop n (Z.of_nat k) st = Some (tt, st') ->
    clock st' = clock st /\
    concurrency (cp st') = concurrency (cp st) /\
    preStop (cp st') = preStop (cp st).
Proof.
  induction n as [|n IH]; intros k st st'.
  - cbn. intros [= <-]. auto.
  - rewrite Close_loop_step_cases.
    destruct (Sessions (cp st) !! k) as [s|]; [|discriminate].
    destruct (requestChs (cp st) !! k) as [c|]; [|discriminate].
    destruct (match c with Some ch => closed ch | None => false end); [discriminate|].
    intros H. apply IH in H. exact H.
Qed.

Lemma Close_loop_closed_queue :
  forall n k st j ch,
    (k <= j < k + n)%nat ->
    requestChs (cp st) !! j = Some (Some ch) ->
    closed ch = true ->
    Close_loop n (Z.of_nat k) st = None.
Proof.
  induction n as [|n IH]; intros k st j ch Hj Hlook Hclosed; [lia|].
  rewrite Close_loop_step_cases.
  destruct (Sessions (cp st) !! k) as [s|]; [|reflexivity].
  destruct (requestChs (cp st) !! k) as [c|] eqn:Hc; [|reflexivity].
  destruct (match c with Some ch0 => closed ch0 | None => false end) eqn:Hopen; [reflexivity|].
  destruct (decide (j = k)) as [->|Hne].
  - rewrite Hlook in Hc. injection Hc as <-. rewrite Hclosed in Hopen. discriminate.
  - apply (IH (S k) _ j ch); [lia | | exact Hclosed].
    cbn. rewrite list_lookup_insert_ne by lia. exact Hlook.
Qed.

(** X14. With a pre-stop batch that is not empty and a session in the pool,
    [Close] sends the batch exactly once, to the first session of the pool
    and before anything is released; a failure of the batch adds one log
    line and nothing else.  Then come the slots and the connection pool. *)
Theorem Close_sends_pre_stop_to_first_session (st : State) (i : Z) (s : Session) :
  length (Sessions (cp st)) = Z.to_nat (concurrency (cp st)) ->
  length (requestChs (cp st)) = Z.to_nat (concurrency (cp st)) ->
  (forall j c, requestChs (cp st) !! j = Some (Some c) -> closed c = false) ->
  pre_stop_commands (cp st) <> "" ->
  getActiveConnIdx (cp st) = i ->
  at_index (Sessions (cp st)) i = Some (Some s) ->
  exists (st' : State) (log : list Event),
    Close st = Some (tt, st') /\
    trace st' = trace st ++ EvExecute i (pre_stop_commands (cp st)) :: log ++
      slots_events 0 (Sessions (cp st)) (requestChs (cp st)) ++ [EvClosePool] /\
    (succeeded (respond s (calls s) (pre_stop_commands (cp st))) = true -> log = []) /\
    (succeeded (respond s (calls s) (pre_stop_commands (cp st))) = false ->
       exists e, log = [EvLogError e]).
Proof.
  intros Hls Hlc Hopen Hne Hi Hs.
  destruct (Close_runs_pre_stop st i s Hne Hi Hs) as (log & Hclose & Hlog).
  destruct (Close_rest (logged log (after_Execute i (pre_stop_commands (cp st)) s st)))
    as (st' & Hrest & Htr & _).
  { cbn. now rewrite length_insert. }
  { exact Hlc. }
  { exact Hopen. }
  exists st', log. split; [rewrite Hclose; exact Hrest|]. split; [|exact Hlog].
  rewrite Htr. cbn [logged after_Execute trace cp Sessions requestChs with_Sessions].
  apply at_index_Some in Hs as [_ Hs].
  rewrite (slots_events_insert_Some _ _ _ _ s _ Hs).
  rewrite <- !app_assoc. reflexivity.
Qed.

Lemma Close_sends_pre_stop_to_first_session_witness :
  exists (st' : State) (e : error),
    Close (demo_state
             (demo_pool (always storage_error) [] false (Some (mkPreStop (Some "DROP SPACE tmp;"))))
             [])
    = Some (tt, st') /\
    trace st' = [EvExecute 0 "DROP SPACE tmp;"; EvLogError e;
                 EvRelease 0; EvCloseCh 0; EvClosePool].
Proof.
  destruct (Close_sends_pre_stop_to_first_session
              (demo_state
                 (demo_pool (always storage_error) [] false
                    (Some (mkPreStop (Some "DROP SPACE tmp;")))) [])
              0 (always storage_error))
    as (st' & log & Hrun & Htr & _ & Hfail); try reflexivity.
  - intros [|[|j]] c H; cbn in H; [injection H as <-; reflexivity | discriminate | discriminate].
  - discriminate.
  - destruct (Hfail eq_refl) as (e & ->). exists st', e. split; [exact Hrun | exact Htr].
Defined.

(** X15. Without a pre-stop batch (none configured, or an empty one), and
    likewise when no slot holds a session, [Close] sends no statement to
    the server and writes no log line: it only goes through the slots and
    closes the connection pool. *)
Theorem Close_without_pre_stop_sends_nothing (st : State) :
  length (Sessions (cp st)) = Z.to_nat (concurrency (cp st)) ->
  length (requestChs (cp st)) = Z.to_nat (concurrency (cp st)) ->
  (forall j c, requestChs (cp st) !! j = Some (Some c) -> closed c = false) ->
  pre_stop_commands (cp st) = "" \/ getActiveConnIdx (cp st) = -1 ->
  exists st',
    Close st = Some (tt, st') /\
    trace st' = trace st ++
      slots_events 0 (Sessions (cp st)) (requestChs (cp st)) ++ [EvClosePool] /\
    clock st' = clock st.
Proof.
  intros Hls Hlc Hopen Hskip.
  destruct (Close_loop_run (Z.to_nat (concurrency (cp st))) 0 st)
    as (st1 & Hrun & Htr & _); [lia | lia | eauto |].
  rewrite !drop_0 in Htr. cbn in Hrun.
  assert (Hclock : clock st1 = clock st)
    by (eapply (Close_loop_frame _ 0), Hrun).
  eexists. split.
  - rewrite (Close_skips_pre_stop st Hskip). unfold Close_rest_of.
    rewrite (bind_Some _ _ _ _ _ Hrun). reflexivity.
  - cbn. split; [rewrite Htr; now rewrite <- app_assoc | exact Hclock].
Qed.

Lemma Close_without_pre_stop_sends_nothing_witness :
  exists st',
    Close (demo_state (demo_pool2 (always ok_reply)) []) = Some (tt, st') /\
    trace st' = [EvRelease 0; EvCloseCh 0; EvRelease 1; EvCloseCh 1; EvClosePool] /\
    clock st' = 0.
Proof.
  destruct (Close_without_pre_stop_sends_nothing (demo_state (demo_pool2 (always ok_reply)) []))
    as (st' & H); try reflexivity.
  - intros [|[|[|j]]] c H; cbn in H; try discriminate; injection H as <-; reflexivity.
  - left. reflexivity.
  - exists st'. exact H.
Defined.

Lemma Close_pre_stop_any st :
  exists st_a pre,
    pre_stop_done st st_a pre /\
    Close st = Close_rest_of (concurrency (cp st)) st_a.
Proof.
  destruct (string_dec (pre_stop_commands (cp st)) "") as [Hempty|Hne].
  { exists st, []. split; [apply pre_stop_done_refl | apply Close_skips_pre_stop; auto]. }
  destruct (first_active_spec (Sessions (cp st)) 0) as [[Hnone _] | (j & s & Hj & Hs & _)].
  { exists st, []. split; [apply pre_stop_done_refl | apply Close_skips_pre_stop; auto]. }
  change (Z.of_nat 0) with 0 in Hj. change (0 + j)%nat with j in Hj.
  assert (Hat : at_index (Sessions (cp st)) (Z.of_nat j) = Some (Some s))
    by now rewrite at_index_nat.
  destruct (Close_runs_pre_stop st (Z.of_nat j) s Hne Hj Hat) as (log & Hclose & Hok & Hfail).
  do 2 eexists. split; [|exact Hclose].
  apply pre_stop_done_Execute; [exact Hs|].
  destruct (succeeded (respond s (calls s) (pre_stop_commands (cp st)))).
  - rewrite (Hok eq_refl). constructor.
  - destruct (Hfail eq_refl) as (e & ->). repeat constructor.
Qed.

(** X16. [Close] must not be called twice: after a [Close] that went
    through, on a pool with at least one queue, a second [Close] panics,
    because it closes a queue that is closed already. *)
Theorem Close_twice_panics (st : State) (j : nat) (c : Chan) :
  length (Sessions (cp st)) = Z.to_nat (concurrency (cp st)) ->
  length (requestChs (cp st)) = Z.to_nat (concurrency (cp st)) ->
  (forall k ch, requestChs (cp st) !! k = Some (Some ch) -> closed ch = false) ->
  requestChs (cp st) !! j = Some (Some c) ->
  exists st', Close st = Some (tt, st') /\ Close st' = None.
Proof.
  intros Hls Hlc Hopen Hj.
  destruct (Close_pre_stop_any st) as (st_a & pre & Hdone & Hclose).
  destruct Hdone as (_ & _ & Hq & Hc & Hl & _).
  destruct (Close_loop_run (Z.to_nat (concurrency (cp st))) 0 st_a)
    as (st1 & Hrun & _ & _ & Hcs & _).
  { rewrite Hl. lia. }
  { rewrite Hq. lia. }
  { intros k ch _. rewrite Hq. apply Hopen. }
  rewrite drop_0, firstn_O, app_nil_l, Hq in Hcs.
  destruct (Close_loop_frame _ 0 _ _ Hrun) as (_ & Hconc & _).
  eexists. split.
  - rewrite Hclose. unfold Close_rest_of. cbn in Hrun.
    rewrite (bind_Some _ _ _ _ _ Hrun). reflexivity.
  - match goal with |- Close ?s2 = None => set (st2 := s2) end.
    destruct (Close_pre_stop_any st2) as (st_b & pre' & Hdone' & Hclose').
    destruct Hdone' as (_ & _ & Hq' & _).
    rewrite Hclose'. unfold Close_rest_of.
    assert (Hnone : Close_loop (Z.to_nat (concurrency (cp st2))) (Z.of_nat 0) st_b = None).
    { apply (Close_loop_closed_queue _ 0 st_b j (shut c)); [| | reflexivity].
      - subst st2. cbn. rewrite Hconc, Hc, <- Hlc.
        pose proof (lookup_lt_Some _ _ _ Hj). lia.
      - rewrite Hq'. subst st2. cbn. rewrite Hcs, list_lookup_fmap, Hj. reflexivity. }
    change (Z.of_nat 0) with 0 in Hnone. unfold bind. now rewrite Hnone.
Qed.

Lemma Close_twice_panics_witness :
  exists st',
    Close (demo_state (demo_pool2 (always ok_reply)) []) = Some (tt, st') /\
    Close st' = None.
Proof.
  apply (Close_twice_panics (demo_state (demo_pool2 (always ok_reply)) []) 0 (mkChan [] 16 false));
    try reflexivity.
  intros [|[|[|k]]] ch H; cbn in H; try discriminate; injection H as <-; reflexivity.
Defined.

(** ** The constructor: what a new pool holds *)

Lemma parse_hosts_acc :
  forall addrs acc hosts,
    parse_hosts addrs acc = inl hosts <->
    exists hs, hosts = acc ++ hs /\ Forall2 (fun addr h => host_of addr = Some h) addrs hs.
Proof.
  induction addrs as [|addr addrs IH]; intros acc hosts; cbn [parse_hosts].
  - split.
    + intros [= <-]. exists []. split; [now rewrite app_nil_r | constructor].
    + intros (hs & -> & H). inversion H; subst. now rewrite app_nil_r.
  - assert (Hbad : host_of addr = None ->
                   forall e, (inr e : sum (list HostAddress) error) = inl hosts <->
                     exists hs, hosts = acc ++ hs /\
                       Forall2 (fun addr h => host_of addr = Some h) (addr :: addrs) hs).
    { intros Hnone e. split; [discriminate|].
      intros (hs & _ & H). inversion H as [|? h ? ? Hh]; subst. congruence. }
    destruct (Split addr ":"%char) as [|host [|port_text [|x rest]]] eqn:Hsplit;
      try (apply Hbad; unfold host_of; now rewrite Hsplit).
    destruct (Atoi port_text) as [port|] eqn:Hatoi;
      [|apply Hbad; unfold host_of; now rewrite Hsplit, Hatoi].
    assert (Hhost : host_of addr = Some (mkHostAddress host port))
      by (unfold host_of; now rewrite Hsplit, Hatoi).
    clear Hbad.
    rewrite IH. split.
    + intros (hs & -> & H). exists (mkHostAddress host port :: hs).
      split; [now rewrite <- app_assoc | constructor; [exact Hhost | exact H]].
    + intros (hs & -> & H). inversion H as [|? h ? hs' Hh Hrest]; subst.
      rewrite Hhost in Hh. injection Hh as <-.
      exists hs'. split; [now rewrite <- app_assoc | exact Hrest].
Qed.

(** X17. The address loop of the constructor succeeds exactly when every
    entry of the list splits at [":"] into a host and a port that [Atoi]
    accepts, and then it yields one host address per entry, in the order of
    the list, with that host text and that port number. *)
Theorem parse_hosts_one_host_per_entry (addrs : list string) (hosts : list HostAddress) :
  parse_hosts addrs [] = inl hosts <->
  Forall2 (fun addr h => host_of addr = Some h) addrs hosts.
Proof.
  rewrite parse_hosts_acc. split.
  - intros (hs & -> & H). exact H.
  - intros H. exists hosts. auto.
Qed.

Lemma fill_slot_fresh settings gr g0 p0 b b' :
  fresh_inv settings gr g0 p0 b ->
  fill_slot settings b = Go_on b' ->
  fresh_inv settings gr g0 p0 b'.
Proof.
  intros (Hj & Hgr & Hg & Hcfg & Hslots). unfold fill_slot, GetSession.
  destruct (at_index (Sessions (b_pool b)) (b_j b)) as [x|] eqn:Hx; [|discriminate].
  destruct (grant (pool (b_pool b)) (granted (pool (b_pool b))) _ _) as [s|e] eqn:Hgot;
    [|discriminate].
  destruct (ChannelBufferSize settings <? 0); [discriminate|].
  destruct (at_index (requestChs (b_pool b)) (b_j b)) as [y|] eqn:Hy; [|discriminate].
  intros [= <-].
  apply at_index_Some in Hx as [_ Hx]. apply at_index_Some in Hy as [_ Hy].
  pose proof (lookup_lt_Some _ _ _ Hx) as Hlt.
  pose proof (lookup_lt_Some _ _ _ Hy) as Hlt'.
  unfold fresh_inv. cbn.
  split; [lia|]. split; [exact Hgr|]. split; [rewrite Hg; lia|]. split; [exact Hcfg|].
  intros k Hk.
  destruct (decide (k = Z.to_nat (b_j b))) as [->|Hne].
  - rewrite !list_lookup_insert_eq by lia. split; [|reflexivity].
    exists s. split; [|reflexivity]. rewrite <- Hgr, <- Hg. exact Hgot.
  - rewrite !list_lookup_insert_ne by lia. apply Hslots. lia.
Qed.

Lemma fill_inner_fresh settings gr g0 p0 :
  forall n b b',
    fresh_inv settings gr g0 p0 b ->
    fill_inner settings n b = Go_on b' ->
    fresh_inv settings gr g0 p0 b'.
Proof.
  induction n as [|n IH]; intros b b' Hinv; cbn [fill_inner].
  - now intros [= <-].
  - destruct (fill_slot settings b) as [b1| |] eqn:Hslot; try discriminate.
    apply IH. eapply fill_slot_fresh; eassumption.
Qed.

Lemma fill_outer_fresh settings gr g0 p0 :
  forall m b b',
    fresh_inv settings gr g0 p0 b ->
    fill_outer settings m b = Go_on b' ->
    fresh_inv settings gr g0 p0 b'.
Proof.
  induction m as [|m IH]; intros b b' Hinv; cbn [fill_outer].
  - now intros [= <-].
  - destruct (fill_inner settings _ b) as [b1| |] eqn:Hin; try discriminate.
    apply IH. eapply fill_inner_fresh; eassumption.
Qed.

Lemma NewClientPool_fresh cluster settings statsCh_ p :
  0 <= Concurrency settings ->
  NewClientPool cluster settings statsCh_ = Some (Some p, None) ->
  let addrs := Split (Address (Connection settings)) ","%char in
  let total := Z.to_nat (Concurrency settings * Z.of_nat (length addrs)) in
  exists hosts connPool,
    parse_hosts addrs [] = inl hosts /\
    cluster hosts (mkPoolConfig 0 0 (wrap64 (Z.of_nat (length addrs) * Concurrency settings)) 1)
    = inl connPool /\
    concurrency p = Concurrency settings * Z.of_nat (length addrs) /\
    length (Sessions p) = total /\
    length (requestChs p) = total /\
    grant (pool p) = grant connPool /\
    granted (pool p) = (granted connPool + total)%nat /\
    (retry p, space p, postStart p, preStop p, statsCh p)
    = (Retry_ settings, Space settings, PostStart settings, PreStop settings, statsCh_) /\
    forall k, (k < total)%nat ->
      (exists s,
          grant connPool (granted connPool + k)%nat
            (User (Connection settings)) (Password (Connection settings)) = inl s /\
          Sessions p !! k = Some (Some s)) /\
      requestChs p !! k = Some (Some (mkChan [] (ChannelBufferSize settings) false)).
Proof.
  intros Hconc Hnew addrs total. unfold NewClientPool in Hnew. fold addrs in Hnew.
  destruct (parse_hosts addrs []) as [hosts|e]; [|discriminate].
  destruct (cluster hosts _) as [connPool|e] eqn:Hdial; [|discriminate].
  set (W := wrap64 (Concurrency settings * Z.of_nat (length addrs))) in *.
  destruct (make_slice W) as [sessions|] eqn:Hms; [|discriminate].
  destruct (@make_slice Chan W) as [chans|] eqn:Hmc; [|discriminate].
  apply make_slice_Some in Hms as (HW & Hls & _).
  apply make_slice_Some in Hmc as (_ & Hlc & _).
  destruct (fill_outer _ _ _) as [b| |] eqn:Hfill; try discriminate.
  injection Hnew as <-.
  match type of Hfill with
  | fill_outer _ _ ?b0 = _ =>
      assert (Hinv0 : building_inv (Z.to_nat W) W b0)
        by (unfold building_inv, filled; cbn; repeat split; try lia; assumption);
      assert (Hfresh0 : fresh_inv settings (grant connPool) (granted connPool) (b_pool b0) b0)
        by (unfold fresh_inv; cbn; repeat split; try lia)
  end.
  destruct (fill_outer_inv settings (Z.to_nat W) W _ _ b Hinv0 Hfill)
    as [(Hj & Hle & Hls' & Hlc' & Hc & _) Hjb].
  pose proof (fill_outer_fresh settings _ _ _ _ _ b Hfresh0 Hfill)
    as (_ & Hgr & Hg & Hcfg & Hslots).
  cbn in Hjb, Hcfg. rewrite Z2Nat.id in Hjb by lia.
  assert (HWP : W = Concurrency settings * Z.of_nat (length addrs)).
  { apply wrap64_exact; [lia | | reflexivity]. rewrite Hjb in Hle. nia. }
  assert (Hfull : Z.to_nat (b_j b) = total) by (subst total; rewrite Hjb; f_equal; lia).
  exists hosts, connPool. split; [reflexivity|]. split; [exact Hdial|].
  split; [now rewrite Hc|]. split; [subst total; now rewrite Hls', HWP|].
  split; [subst total; now rewrite Hlc', HWP|]. split; [exact Hgr|].
  split; [now rewrite Hg, Hfull|]. split; [exact Hcfg|].
  intros k Hk. apply Hslots. lia.
Qed.

(** X18. A pool that [NewClientPool] returns (for a per-endpoint
    concurrency that is not negative) is new in every slot: slot [k] holds
    the session of the [k]-th [GetSession] call on the connection pool, in
    the order of acquisition; every queue is empty, open and of the
    configured buffer size; exactly [concurrency] sessions were asked for;
    and retry budget, space, post-start, pre-stop and the statistics
    channel are the ones of the settings. *)
Theorem NewClientPool_pool_is_new
    (cluster : Cluster) (settings : NebulaClientSettings) (statsCh_ : nat) (p : ClientPool) :
  0 <= Concurrency settings ->
  NewClientPool cluster settings statsCh_ = Some (Some p, None) ->
  (retry p, space p, postStart p, preStop p, statsCh p)
  = (Retry_ settings, Space settings, PostStart settings, PreStop settings, statsCh_) /\
  (forall k, (k < length (requestChs p))%nat ->
     requestChs p !! k = Some (Some (mkChan [] (ChannelBufferSize settings) false))) /\
  exists connPool,
    grant (pool p) = grant connPool /\
    Z.of_nat (granted (pool p)) = Z.of_nat (granted connPool) + concurrency p /\
    forall k, (k < length (Sessions p))%nat ->
      exists s,
        grant connPool (granted connPool + k)%nat
          (User (Connection settings)) (Password (Connection settings)) = inl s /\
        Sessions p !! k = Some (Some s).
Proof.
  intros Hconc Hnew.
  destruct (NewClientPool_fresh cluster settings statsCh_ p Hconc Hnew)
    as (hosts & connPool & _ & _ & Hc & Hls & Hlc & Hgr & Hg & Hcfg & Hslots).
  split; [exact Hcfg|]. split.
  - intros k Hk. apply Hslots. lia.
  - exists connPool. split; [exact Hgr|]. split; [rewrite Hg, Hc; lia|].
    intros k Hk. apply Hslots. lia.
Qed.

Lemma NewClientPool_pool_is_new_witness :
  exists p,
    NewClientPool demo_cluster (demo_settings "h1:9669,h2:9669" 1) 0 = Some (Some p, None) /\
    requestChs p !! 1%nat = Some (Some (mkChan [] 16 false)) /\
    retry p = 2.
Proof.
  eexists. split; [reflexivity|].
  destruct (NewClientPool_pool_is_new demo_cluster (demo_settings "h1:9669,h2:9669" 1) 0 _
              ltac:(cbn; lia) eq_refl) as (Hcfg & Hq & _).
  split; [apply Hq; vm_compute; lia | reflexivity].
Defined.





(** X20. A negative per-endpoint concurrency is not reported as an error:
    with a well-formed address list and a reachable cluster, the
    constructor panics when it makes the session slice of negative
    length. *)
Theorem NewClientPool_negative_concurrency_panics
    (cluster : Cluster) (settings : NebulaClientSettings) (statsCh_ : nat)
    (hosts : list HostAddress) (connPool : ConnectionPool) :
  let addrs := Split (Address (Connection settings)) ","%char in
  Forall2 (fun addr h => host_of addr = Some h) addrs hosts ->
  cluster hosts (mkPoolConfig 0 0 (wrap64 (Z.of_nat (length addrs) * Concurrency settings)) 1)
  = inl connPool ->
  Concurrency settings < 0 ->
  minInt <= Concurrency settings * Z.of_nat (length addrs) ->
  NewClientPool cluster settings statsCh_ = None.
Proof.
  intros addrs Hhosts Hdial Hneg Hmin.
  assert (Hlen : (0 < length addrs)%nat).
  { subst addrs. destruct (Address (Connection settings)) as [|c rest]; cbn; [lia|].
    destruct (Split rest ","%char) eqn:Hs; [|destruct (Ascii.eqb c ","%char); cbn; lia].
    exfalso. clear - Hs. revert Hs. induction rest as [|c' rest IH]; cbn; [discriminate|].
    destruct (Split rest ","%char); [auto|]. destruct (Ascii.eqb c' ","%char); discriminate. }
  unfold NewClientPool. fold addrs.
  rewrite (proj2 (parse_hosts_acc addrs [] hosts)) by (exists hosts; auto).
  rewrite Hdial.
  rewrite wrap64_small
    by (unfold maxInt; assert (0 < 2 ^ 63 - 1) by reflexivity; nia).
  unfold make_slice.
  destruct (Concurrency settings * Z.of_nat (length addrs) <? 0) eqn:Hlt; [reflexivity|].
  apply Z.ltb_ge in Hlt. nia.
Qed.

Lemma NewClientPool_negative_concurrency_panics_witness :
  NewClientPool demo_cluster (demo_settings "h1:9669,h2:9669" (-1)) 0 = None.
Proof.
  apply (NewClientPool_negative_concurrency_panics demo_cluster
           (demo_settings "h1:9669,h2:9669" (-1)) 0
           [mkHostAddress "h1" 9669; mkHostAddress "h2" 9669]
           (mkConnectionPool (fun _ _ _ => inl (always ok_reply)) 0 false)).
  - repeat constructor.
  - reflexivity.
  - cbn. lia.
  - vm_compute. discriminate.
Defined.

Lemma fill_outer_no_inner settings :
  Z.to_nat (Concurrency settings) = 0%nat ->
  forall m b, fill_outer settings m b = Go_on b.
Proof.
  intros H. induction m as [|m IH]; intros b; cbn [fill_outer]; [reflexivity|].
  rewrite H. cbn [fill_inner]. apply IH.
Qed.

(** X21. A per-endpoint concurrency of 0 is accepted: the constructor
    returns a pool without any slot and asks for no session.  [Init] on
    that pool then fails with "no available session." and starts no
    worker. *)
Theorem NewClientPool_zero_concurrency_gives_unusable_pool
    (cluster : Cluster) (settings : NebulaClientSettings) (statsCh_ : nat)
    (hosts : list HostAddress) (connPool : ConnectionPool) :
  let addrs := Split (Address (Connection settings)) ","%char in
  Forall2 (fun addr h => host_of addr = Some h) addrs hosts ->
  cluster hosts (mkPoolConfig 0 0 (wrap64 (Z.of_nat (length addrs) * Concurrency settings)) 1)
  = inl connPool ->
  Concurrency settings = 0 ->
  exists p,
    NewClientPool cluster settings statsCh_ = Some (Some p, None) /\
    Sessions p = [] /\ requestChs p = [] /\ concurrency p = 0 /\
    pool p = connPool /\
    forall ParseDuration now delays,
      Init ParseDuration (state_of p now delays)
      = Some ((Some (Errorf "no available session." []), []), state_of p now delays).
Proof.
  intros addrs Hhosts Hdial Hzero.
  unfold NewClientPool. fold addrs.
  rewrite (proj2 (parse_hosts_acc addrs [] hosts)) by (exists hosts; auto).
  rewrite Hdial, Hzero. rewrite Z.mul_0_l.
  change (wrap64 0) with 0. cbn [make_slice Z.ltb Z.compare Z.to_nat replicate].
  rewrite fill_outer_no_inner by (now rewrite Hzero).
  eexists. split; [reflexivity|]. cbn [b_pool Sessions requestChs concurrency pool].
  repeat split.
Qed.

Lemma NewClientPool_zero_concurrency_gives_unusable_pool_witness :
  exists p,
    NewClientPool demo_cluster (demo_settings "h1:9669" 0) 0 = Some (Some p, None) /\
    Init demo_durations (state_of p 0 (fun _ => []))
    = Some ((Some (Errorf "no available session." []), []), state_of p 0 (fun _ => [])).
Proof.
  destruct (NewClientPool_zero_concurrency_gives_unusable_pool demo_cluster
              (demo_settings "h1:9669" 0) 0 [mkHostAddress "h1" 9669]
              (mkConnectionPool (fun _ _ _ => inl (always ok_reply)) 0 false))
    as (p & Hnew & _ & _ & _ & _ & Hinit); [repeat constructor | reflexivity | reflexivity |].
  exists p. split; [exact Hnew | apply Hinit].
Defined.

(** ** A new pool in use *)

Lemma new_pool_slots cluster settings statsCh_ p :
  0 <= Concurrency settings ->
  NewClientPool cluster settings statsCh_ = Some (Some p, None) ->
  length (Sessions p) = Z.to_nat (concurrency p) /\
  length (requestChs p) = Z.to_nat (concurrency p) /\
  (forall k, (k < Z.to_nat (concurrency p))%nat ->
     (exists s, Sessions p !! k = Some (Some s)) /\
     requestChs p !! k = Some (Some (mkChan [] (ChannelBufferSize settings) false))).
Proof.
  intros Hconc Hnew.
  destruct (NewClientPool_fresh cluster settings statsCh_ p Hconc Hnew)
    as (hosts & connPool & _ & _ & Hc & Hls & Hlc & _ & _ & _ & Hslots).
  rewrite Hc. split; [exact Hls|]. split; [exact Hlc|].
  intros k Hk. destruct (Hslots k Hk) as [(s & _ & Hs) Hq]. eauto.
Qed.

(** X22. A pool that [NewClientPool] returned can be closed: on a state
    with that pool [Close] runs through without a panic, and afterwards
    every session is released, every queue closed and the connection pool
    closed. *)
Theorem new_pool_can_be_closed
    (cluster : Cluster) (settings : NebulaClientSettings) (statsCh_ : nat) (p : ClientPool)
    (now : Z) (delays : Z -> list Z) :
  0 <= Concurrency settings ->
  NewClientPool cluster settings statsCh_ = Some (Some p, None) ->
  exists st',
    Close (state_of p now delays) = Some (tt, st') /\
    length (List.filter (fun e => match e with EvRelease _ => true | _ => false end) (trace st'))
    = Z.to_nat (concurrency p) /\
    (forall j s, Sessions (cp st') !! j = Some (Some s) -> released s = true) /\
    (forall j c, requestChs (cp st') !! j = Some (Some c) -> closed c = true) /\
    poolClosed (pool (cp st')) = true.
Proof.
  intros Hconc Hnew.
  destruct (new_pool_slots cluster settings statsCh_ p Hconc Hnew) as (Hls & Hlc & Hslots).
  destruct (Close_pre_stop_any (state_of p now delays))
    as (st_a & pre & (Htr & Hev & Hq & Hc & Hl & Hshape) & Hclose).
  cbn [state_of cp trace] in *.
  assert (Hopen : forall j c, requestChs p !! j = Some (Some c) -> closed c = false).
  { intros j c Hj. pose proof (lookup_lt_Some _ _ _ Hj) as Hlt.
    destruct (Hslots j ltac:(lia)) as [_ Hq']. rewrite Hq' in Hj. now injection Hj as <-. }
  destruct (Close_rest st_a) as (st' & Hrest & Htr' & Hrel & Hcl & Hpool).
  { now rewrite Hl, Hc. }
  { now rewrite Hq, Hc. }
  { rewrite Hq. exact Hopen. }
  exists st'. split; [rewrite Hclose; unfold Close_rest_of; rewrite <- Hc; exact Hrest|].
  split; [|auto].
  rewrite Htr', Htr, Hshape, Hq. cbn [app].
  rewrite !List.filter_app.
  assert (Hpre0 : List.filter (fun e => match e with EvRelease _ => true | _ => false end) pre = []).
  { clear - Hev. induction Hev as [|e l He _ IH]; [reflexivity|].
    cbn. destruct e; cbn in He; try contradiction; exact IH. }
  rewrite Hpre0. cbn [List.filter app]. rewrite app_nil_r.
  rewrite <- Hls. clear - Hls Hlc Hslots.
  assert (Hgen : forall ss cs k,
    length ss = length cs -> Forall (fun o => o <> None) ss ->
    length (List.filter (fun e => match e with EvRelease _ => true | _ => false end)
              (slots_events k ss cs)) = length ss).
  { induction ss as [|s ss IH]; intros cs k Hlen Hall; [reflexivity|].
    destruct cs as [|c cs]; [discriminate|]. inversion Hall as [|? ? Hs Hrest]; subst.
    cbn [slots_events]. destruct s as [s|]; [|congruence].
    rewrite !List.filter_app. cbn [List.filter app length].
    destruct c; cbn [List.filter app length]; f_equal; apply IH; auto; cbn in Hlen; lia. }
  apply Hgen; [lia|].
  apply Forall_lookup. intros k x Hx. pose proof (lookup_lt_Some _ _ _ Hx) as Hlt.
  destruct (Hslots k ltac:(lia)) as [(s & Hs) _]. congruence.
Qed.

Lemma new_pool_can_be_closed_witness :
  exists p st',
    NewClientPool demo_cluster (demo_settings "h1:9669,h2:9669" 1) 0 = Some (Some p, None) /\
    Close (state_of p 0 (fun _ => [])) = Some (tt, st') /\
    poolClosed (pool (cp st')) = true.
Proof.
  eexists.
  destruct (new_pool_can_be_closed demo_cluster (demo_settings "h1:9669,h2:9669" 1) 0 _
              0 (fun _ => []) ltac:(cbn; lia) eq_refl)
    as (st' & Hrun & _ & _ & _ & Hpool).
  exists st'. split; [reflexivity|]. split; [exact Hrun | exact Hpool].
Defined.




(** ** The byte count of a payload *)

Lemma importedBytes_from (data : list Data) :
  forall acc,
    Forall (fun d => 0 <= Bytes d) data ->
    0 <= acc ->
    acc + total_bytes data <= maxInt ->
    fold_left (fun a d => wrap64 (a + Bytes d)) data acc = acc + total_bytes data.
Proof.
  induction data as [|d data IH]; intros acc Hpos Hacc Hmax; cbn [fold_left total_bytes fold_right].
  - lia.
  - inversion Hpos as [|? ? Hd Hrest]; subst.
    assert (Hsum : 0 <= total_bytes data).
    { clear - Hrest. induction Hrest as [|x l Hx _ IH]; cbn; [lia|].
      fold (total_bytes l). lia. }
    cbn [total_bytes fold_right] in Hmax. fold (total_bytes data) in Hmax |- *.
    rewrite wrap64_small by (unfold minInt; assert (- 2 ^ 63 < 0) by reflexivity; lia).
    rewrite IH by (auto; lia). lia.
Qed.

(** X24. The byte count in the statistics of a request is the sum of the
    byte sizes of its records, as long as no size is negative and the sum
    fits 64 bits; in particular it is 0 for an empty payload. *)
Theorem importedBytes_is_the_sum (data : list Data) :
  Forall (fun d => 0 <= Bytes d) data ->
  total_bytes data <= maxInt ->
  importedBytes data = total_bytes data.
Proof.
  intros Hpos Hmax. unfold importedBytes.
  rewrite importedBytes_from; auto; lia.
Qed.

Lemma importedBytes_is_the_sum_witness :
  importedBytes [mkData ["a"] 10; mkData ["b"] 20; mkData [] 0] = 30.
Proof.
  rewrite importedBytes_is_the_sum; [reflexivity | repeat constructor; cbn; lia |].
  vm_compute. discriminate.
Defined.
